(** * gif-land-discord: the interaction handler of [src/index.ts]

    A shallow embedding of the Cloudflare-Worker handler that answers
    Discord interactions with GIFs from gif.land, and the properties of
    it that the specification states.

    Conventions of the embedding.
    - A JavaScript string is a [string]; one [ascii] stands for one
      UTF-16 code unit below 256 (ASCII and Latin-1).  Catalog text
      outside that range is outside the model.
    - A JavaScript value that may be [undefined] or [null] is an
      [option]; a property read on it raises [TypeError].
    - A computation that may throw and that talks to the outside world
      lives in the monad [M]: a log of the effects performed so far and
      either a returned value or a thrown error.
    - [Math.random], the catalog service, [JSON.parse] and
      [crypto.subtle] are the platform: they are inputs of the model. *)

From Stdlib Require Import ZArith NArith Ascii String DecimalString Permutation Lia.
From stdpp Require Import base list strings.

Local Open Scope Z_scope.

(** ** JavaScript strings *)

Module JS.

Definition code (c : ascii) : Z := Z.of_N (N_of_ascii c).

Definition between (lo hi n : Z) : bool := (lo <=? n) && (n <=? hi).

(** [s.slice(0, n)] *)
Fixpoint take (n : nat) (s : string) : string :=
  match n, s with
  | S k, String c r => String c (take k r)
  | _, _ => ""
  end.

(** [s.slice(n)] *)
Fixpoint drop (n : nat) (s : string) : string :=
  match n, s with
  | S k, String _ r => drop k r
  | _, _ => s
  end.

(** [s.slice(b, e)] and [s.substring(b, e)] for [0 <= b <= e]. *)
Definition slice (b e : nat) (s : string) : string := take (e - b) (drop b s).

(** [s.startsWith(p)] *)
Definition startsWith (s p : string) : bool := String.prefix p s.

(** [hay.includes(needle)] *)
Fixpoint includes (hay needle : string) : bool :=
  String.prefix needle hay
  || match hay with
     | String _ r => includes r needle
     | EmptyString => false
     end.

(** [String.prototype.toLowerCase] on code units below 256: the basic
    Latin capitals and the Latin-1 capitals (U+00C0 to U+00DE but the
    multiplication sign U+00D7) move up by 32. *)
Definition lower_char (c : ascii) : ascii :=
  let n := code c in
  if between 65 90 n || (between 192 222 n && negb (n =? 215))
  then ascii_of_N (Z.to_N (n + 32))
  else c.

Fixpoint toLowerCase (s : string) : string :=
  match s with
  | String c r => String (lower_char c) (toLowerCase r)
  | EmptyString => ""
  end.

(** White space and line terminators below 256: TAB, LF, VT, FF, CR,
    SP and NBSP. *)
Definition is_white (c : ascii) : bool :=
  let n := code c in between 9 13 n || (n =? 32) || (n =? 160).

Fixpoint trimStart (s : string) : string :=
  match s with
  | String c r => if is_white c then trimStart r else s
  | EmptyString => ""
  end.

Fixpoint trimEnd (s : string) : string :=
  match s with
  | String c r =>
      match trimEnd r with
      | EmptyString => if is_white c then "" else String c ""
      | t => String c t
      end
  | EmptyString => ""
  end.

(** [s.trim()] *)
Definition trim (s : string) : string := trimEnd (trimStart s).

(** [s.split(sep)] for a non-empty [sep]: [cur] is the piece being
    read, [skip] the number of characters of a separator just found
    that are still to be passed over. *)
Fixpoint split_from (sep : string) (skip : nat) (cur s : string) : list string :=
  match s with
  | EmptyString => [cur]
  | String c r =>
      match skip with
      | S k => split_from sep k cur r
      | O =>
          if String.prefix sep s
          then cur :: split_from sep (String.length sep - 1) "" r
          else split_from sep 0 (cur +:+ String c "") r
      end
  end.

Definition split (sep s : string) : list string := split_from sep 0 "" s.

(** [s.split(sep, limit)] keeps the first [limit] pieces. *)
Definition split_limit (sep : string) (limit : nat) (s : string) : list string :=
  List.firstn limit (split sep s).

(** The decimal text of a non-negative number in a template literal. *)
Definition decimal (n : nat) : string := NilZero.string_of_uint (Nat.to_uint n).

(** *** [parseInt(s, 16)]; [None] is NaN *)

Definition hex_digit (c : ascii) : option Z :=
  let n := code c in
  if between 48 57 n then Some (n - 48)
  else if between 97 102 n then Some (n - 87)
  else if between 65 70 n then Some (n - 55)
  else None.

(** The value of the longest prefix of hexadecimal digits, [acc] being
    the value read so far ([None]: no digit yet). *)
Fixpoint digits_prefix (acc : option Z) (s : string) : option Z :=
  match s with
  | String c r =>
      match hex_digit c with
      | Some d => digits_prefix (Some (16 * default 0 acc + d)) r
      | None => acc
      end
  | EmptyString => acc
  end.

Definition strip_sign (s : string) : Z * string :=
  match s with
  | String "-" r => (-1, r)
  | String "+" r => (1, r)
  | _ => (1, s)
  end.

Definition strip_0x (s : string) : string :=
  match s with
  | String "0" (String "x" r) => r
  | String "0" (String "X" r) => r
  | _ => s
  end.

Definition parseInt16 (s : string) : option Z :=
  let '(sign, s2) := strip_sign (trimStart s) in
  match digits_prefix None (strip_0x s2) with
  | Some v => Some (sign * v)
  | None => None
  end.

(** Storing a number into a [Uint8Array]: NaN becomes 0, an integer is
    taken modulo 256. *)
Definition ToUint8 (v : option Z) : Z :=
  match v with
  | Some n => n mod 256
  | None => 0
  end.

(** [new TextEncoder().encode(s)]: UTF-8; a code unit from 128 to 255
    takes two bytes. *)
Fixpoint utf8_encode (s : string) : list Z :=
  match s with
  | String c r =>
      let n := code c in
      if n <? 128 then n :: utf8_encode r
      else (192 + n / 64) :: (128 + n mod 64) :: utf8_encode r
  | EmptyString => []
  end.

(** [Math.floor(Math.random() * n)]: the random number is [r / 2^53]
    for the 53 random bits [r] the engine drew. *)
Definition floor_random_times (r : N) (n : nat) : nat :=
  N.to_nat ((r mod 2 ^ 53) * N.of_nat n / 2 ^ 53)%N.

End JS.

(** ** Data model *)

(** [interface Gif].  The catalog is trusted for [url]; [tags] is read
    defensively by the code ([g.tags?.], [gif.tags || ...]), so it may
    be missing ([None] stands for undefined and null). *)
Record Gif := {
  gif_id : Z;
  url : string;
  tags : option string;
  width : Z;
  height : Z;
}.

(** [interface Env] *)
Record Env := {
  DISCORD_PUBLIC_KEY : string;
  DISCORD_TOKEN : string;
  DISCORD_APP_ID : string;
}.

Definition SITE_URL : string := "https://gif.land".
Definition MAX_GIFS_SHOWN : nat := 10.

Module InteractionType.
Definition PING : Z := 1.
Definition APPLICATION_COMMAND : Z := 2.
Definition MESSAGE_COMPONENT : Z := 3.
End InteractionType.

Module InteractionResponseType.
Definition PONG : Z := 1.
Definition CHANNEL_MESSAGE_WITH_SOURCE : Z := 4.
Definition DEFERRED_CHANNEL_MESSAGE_WITH_SOURCE : Z := 5.
Definition DEFERRED_UPDATE_MESSAGE : Z := 6.
Definition UPDATE_MESSAGE : Z := 7.
End InteractionResponseType.

Definition EPHEMERAL : Z := Z.shiftl 1 6.

(** The interaction payload, with the fields the handler reads. *)
Record CommandOption := {
  name : string;
  value : option string;
}.

Record InteractionData := {
  options : option (list CommandOption);
  custom_id : option string;
}.

Record Interaction := {
  type : option Z;
  data : option InteractionData;
  token : string;
}.

(** The objects the handler answers with.  A key that an object literal
    of the source does not have is [None]. *)
Record Embed := {
  title : string;
  image_url : string;
}.

Record Button := {
  button_type : Z;
  style : Z;
  label : string;
  button_custom_id : string;
}.

Record ActionRow := {
  row_type : Z;
  row_components : list Button;
}.

Record Message := {
  content : option string;
  embeds : option (list Embed);
  components : option (list ActionRow);
  flags : option Z;
}.

Record InteractionResponse := {
  response_type : Z;
  response_data : option Message;
}.

Inductive Body :=
  | TextBody (text : string)
  | JsonBody (payload : InteractionResponse).

Record Response := {
  status : nat;
  headers : list (string * string);
  body : Body;
}.

Record Request := {
  method : string;
  X_Signature_Ed25519 : option string;
  X_Signature_Timestamp : option string;
  request_text : string;
}.

(** ** Errors and effects *)

Inductive JsError :=
  | TypeError
  | SyntaxError
  | DataError
  | NetworkError
  | Error (msg : string).

Inductive result (A : Type) :=
  | Returned (a : A)
  | Thrown (e : JsError).
Arguments Returned {A} a.
Arguments Thrown {A} e.

(** What a request makes the worker do besides answering. *)
Inductive effect :=
  | EvJsonParse (text : string)
  | EvFetch (target : string)
  | EvWaitUntilPost (target : string) (payload : Message).

Definition M (A : Type) : Type := list effect * result A.

Definition ret {A} (a : A) : M A := ([], Returned a).
Definition throw {A} (e : JsError) : M A := ([], Thrown e).
Definition perform (ev : effect) : M unit := ([ev], Returned tt).
Definition lift {A} (r : result A) : M A := ([], r).

Definition bind {A B} (m : M A) (k : A -> M B) : M B :=
  match m with
  | (log, Returned a) => let '(log', r) := k a in (log ++ log', r)
  | (log, Thrown e) => (log, Thrown e)
  end.

(** [try { m } catch { ... }]: the error is caught and handed over as a
    value; the effects performed before it stay performed. *)
Definition attempt {A} (m : M A) : M (result A) := (fst m, Returned (snd m)).

Notation "'let!' x ':=' m 'in' k" := (bind m (fun x => k))
  (at level 10, x pattern, m at level 100, k at level 200).
Notation "m ';;' k" := (bind m (fun _ => k))
  (at level 100, k at level 200, right associativity).

Definition effects {A} (m : M A) : list effect := fst m.
Definition outcome {A} (m : M A) : result A := snd m.

(** ** The platform *)

(** [crypto.subtle] for Ed25519 and [JSON.parse].  Both may throw.
    [JSON_parse] gives the interaction that the body parses to; a body
    that is no JSON, or the JSON null, whose type cannot be read, is
    an error. *)
Record Platform := {
  CryptoKey : Type;
  importKey : list Z -> result CryptoKey;
  verify : CryptoKey -> list Z -> list Z -> result bool;
  JSON_parse : string -> result Interaction;
}.

(** What the catalog service answers to the one request for the
    listing: no answer at all, or a status and a body that is a JSON
    array of GIFs ([Some]) or no JSON ([None]). *)
Inductive FetchOutcome :=
  | NetworkFailure
  | HttpReply (reply_status : nat) (reply_json : option (list Gif)).

(** The world of one request: the catalog's answer and the random bits
    of the successive calls of [Math.random]. *)
Record World := {
  catalog : FetchOutcome;
  random : nat -> N;
}.

(** ** Helpers *)

Definition jsonResponse (payload : InteractionResponse) (st : nat) : Response :=
  {| status := st;
     headers := [("Content-Type", "application/json")];
     body := JsonBody payload |}.

Definition plainResponse (text : string) (st : nat) : Response :=
  {| status := st; headers := []; body := TextBody text |}.

(** [res.ok] *)
Definition ok (st : nat) : bool := (200 <=? st)%nat && (st <=? 299)%nat.

Definition fetchGifs (w : World) : M (list Gif) :=
  perform (EvFetch (SITE_URL +:+ "/api"));;
  match catalog w with
  | NetworkFailure => throw NetworkError
  | HttpReply st json =>
      if negb (ok st)
      then throw (Error ("Failed to fetch GIFs: " +:+ JS.decimal st))
      else match json with
           | Some gifs => ret gifs
           | None => throw SyntaxError
           end
  end.

(** [[a[i], a[j]] = [a[j], a[i]]]: both reads, then the write at [i],
    then the write at [j].  The loop of [shuffled] only swaps inside the
    array ([shuffled_in_range]); outside it the model leaves the array
    as it is. *)
Definition swap {T} (a : list T) (i j : nat) : list T :=
  match a !! i, a !! j with
  | Some x, Some y => <[j := x]> (<[i := y]> a)
  | _, _ => a
  end.

(** The loop of [shuffled], [k] calls of [Math.random] having been made. *)
Fixpoint shuffle_loop {T} (rnd : nat -> N) (k i : nat) (a : list T) : list T :=
  match i with
  | O => a
  | S i' =>
      let j := JS.floor_random_times (rnd k) (i + 1) in
      shuffle_loop rnd (S k) i' (swap a i j)
  end.

Definition shuffled {T} (rnd : nat -> N) (arr : list T) : list T :=
  shuffle_loop rnd 0 (length arr - 1) arr.

(** ** Ed25519 signature verification *)

(** The loop of [hexToUint8Array] at index [i]; a write past the end of
    a typed array is dropped. *)
Fixpoint hex_loop (fuel i : nat) (hex : string) (bytes : list Z) : list Z :=
  match fuel with
  | O => bytes
  | S fuel' =>
      if (i <? String.length hex)%nat
      then hex_loop fuel' (i + 2) hex
             (<[(i / 2)%nat := JS.ToUint8 (JS.parseInt16 (JS.slice i (i + 2) hex))]> bytes)
      else bytes
  end.

(** [new Uint8Array(hex.length / 2)] has the integer part of the
    quotient as its length. *)
Definition hexToUint8Array (hex : string) : list Z :=
  hex_loop (String.length hex) 0 hex (replicate (String.length hex / 2) 0).

Definition verifyDiscordSignature (P : Platform)
    (publicKey signature timestamp text : string) : M bool :=
  let! key := lift (importKey P (hexToUint8Array publicKey)) in
  let message := JS.utf8_encode (timestamp +:+ text) in
  lift (verify P key (hexToUint8Array signature) message).

(** ** Messages with embeds and buttons *)

(** A string in a condition: empty is false, and so is missing. *)
Definition nonEmpty (s : string) : bool :=
  match s with
  | String _ _ => true
  | EmptyString => false
  end.

Definition truthy (s : option string) : bool :=
  match s with
  | Some t => nonEmpty t
  | None => false
  end.

(** [s || ""] *)
Definition or_empty (s : option string) : string :=
  if truthy s then default "" s else "".

(** [`${gif.url}${gif.tags ? ` | ${gif.tags}` : ""}`] *)
Definition gifTitle (gif : Gif) : string :=
  url gif +:+ (if truthy (tags gif) then " | " +:+ default "" (tags gif) else "").

Definition gifEmbed (gif : Gif) : Embed :=
  {| title := gifTitle gif; image_url := SITE_URL +:+ "/" +:+ url gif |}.

Definition gifButton (gif : Gif) : Button :=
  {| button_type := 2;
     style := 1;
     label := JS.take 80 ("Post: " +:+ url gif);
     button_custom_id :=
       JS.take 100 ("post:" +:+ url gif +:+ "||" +:+ or_empty (tags gif)) |}.

(** [gifs.slice(b, e)] *)
Definition array_slice {T} (b e : nat) (l : list T) : list T :=
  take (e - b) (drop b l).

(** The loop that fills [actionRows], at index [i]. *)
Fixpoint actionRows_loop (fuel i : nat) (gifs : list Gif) : list ActionRow :=
  match fuel with
  | O => []
  | S fuel' =>
      if (i <? length gifs)%nat
      then {| row_type := 1;
              row_components := map gifButton (array_slice i (i + 2) gifs) |}
           :: actionRows_loop fuel' (i + 2) gifs
      else []
  end.

Definition actionRows (gifs : list Gif) : list ActionRow :=
  actionRows_loop (length gifs) 0 gifs.

Definition headerText (gifs : list Gif) (query : string) : string :=
  if (length gifs =? MAX_GIFS_SHOWN)%nat
  then "Showing " +:+ JS.decimal MAX_GIFS_SHOWN +:+ " GIFs for **" +:+ query
       +:+ "** — try a more specific search to narrow results."
  else "Found " +:+ JS.decimal (length gifs) +:+ " GIF"
       +:+ (if (length gifs =? 1)%nat then "" else "s")
       +:+ " for **" +:+ query +:+ "**".

Definition buildGifPicker (gifs : list Gif) (query : string) : Message :=
  {| content := Some (headerText gifs query);
     embeds := Some (map gifEmbed gifs);
     components := Some (actionRows gifs);
     flags := Some EPHEMERAL |}.

(** The argument is what the caller read out of an array: [None] is the
    [undefined] of an index outside it, and [gif.url] then throws. *)
Definition buildSingleGifMessage (gif : option Gif) : result Message :=
  match gif with
  | Some g =>
      Returned {| content := None;
                  embeds := Some [gifEmbed g];
                  components := None;
                  flags := None |}
  | None => Thrown TypeError
  end.

(** ** Interaction handlers *)

Definition handlePing : Response :=
  jsonResponse {| response_type := InteractionResponseType.PONG;
                  response_data := None |} 200.

Definition channelMessage (m : Message) : Response :=
  jsonResponse
    {| response_type := InteractionResponseType.CHANNEL_MESSAGE_WITH_SOURCE;
       response_data := Some m |} 200.

Definition updateMessage (m : Message) : Response :=
  jsonResponse
    {| response_type := InteractionResponseType.UPDATE_MESSAGE;
       response_data := Some m |} 200.

Definition textMessage (text : string) (fl : option Z) : Message :=
  {| content := Some text; embeds := None; components := None; flags := fl |}.

Definition dquote : string := String (ascii_of_nat 34) "".

Definition unreachableMessage : Message :=
  textMessage "Could not reach gif.land right now. Try again in a moment."
    (Some EPHEMERAL).

Definition noResultsMessage (query : string) : Message :=
  textMessage
    ("No GIFs found for " +:+ dquote +:+ query +:+ dquote
     +:+ ". Try a different search.")
    (Some EPHEMERAL).

(** The search term of a command: the value of the option named
    [search], trimmed; no option and no value give the empty string. *)
Definition searchQuery (interaction : Interaction) : string :=
  let opts := default [] (data interaction ≫= options) in
  let searchOption := List.find (fun o => String.eqb (name o) "search") opts in
  JS.trim (default "" (searchOption ≫= value)).

(** The test of the filter on one GIF. *)
Definition gifMatches (lowerQuery : string) (g : Gif) : bool :=
  match tags g with
  | Some t => JS.includes (JS.toLowerCase t) lowerQuery
  | None => false
  end
  || JS.includes (JS.toLowerCase (url g)) lowerQuery.

Definition searchMatches (allGifs : list Gif) (query : string) : list Gif :=
  let lowerQuery := JS.toLowerCase query in
  List.filter (gifMatches lowerQuery) allGifs.

Definition handleSlashCommand (w : World) (interaction : Interaction) : M Response :=
  let query := searchQuery interaction in
  let! fetched := attempt (fetchGifs w) in
  match fetched with
  | Thrown _ => ret (channelMessage unreachableMessage)
  | Returned allGifs =>
      if negb (nonEmpty query)
      then
        let gif := allGifs !! JS.floor_random_times (random w 0) (length allGifs) in
        let! message := lift (buildSingleGifMessage gif) in
        ret (channelMessage message)
      else
        let matches := searchMatches allGifs query in
        if (length matches =? 0)%nat
        then ret (channelMessage (noResultsMessage query))
        else
          let shown := take MAX_GIFS_SHOWN (shuffled (random w) matches) in
          ret (channelMessage (buildGifPicker shown query))
  end.

(** [const [gifFilename, tags = ""] = payload.split("||", 2)].  A split
    has at least one piece ([split_from_not_nil]); the text of an
    undefined first piece would be the word undefined. *)
Definition decodePayload (payload : string) : string * string :=
  let parts := JS.split_limit "||" 2 payload in
  (default "undefined" (parts !! 0%nat), default "" (parts !! 1%nat)).

Definition handleButtonClick (interaction : Interaction) (env : Env) : M Response :=
  let customId := default "" (data interaction ≫= custom_id) in
  if negb (JS.startsWith customId "post:")
  then
    ret (updateMessage
           {| content := Some "Unknown action.";
              embeds := Some [];
              components := Some [];
              flags := None |})
  else
    let payload := JS.drop (String.length "post:") customId in
    let '(gifFilename, tgs) := decodePayload payload in
    let gif := {| gif_id := 0; url := gifFilename; tags := Some tgs;
                  width := 0; height := 0 |} in
    let confirmResponse :=
      updateMessage
        {| content := Some ("Posted **" +:+ gifFilename +:+ "**");
           embeds := Some [];
           components := Some [];
           flags := None |} in
    let! message := lift (buildSingleGifMessage (Some gif)) in
    perform (EvWaitUntilPost
               ("https://discord.com/api/v10/webhooks/" +:+ DISCORD_APP_ID env
                +:+ "/" +:+ token interaction)
               message);;
    ret confirmResponse.

(** ** Main handler *)

Definition fetch (P : Platform) (w : World) (request : Request) (env : Env) : M Response :=
  if negb (String.eqb (method request) "POST")
  then ret (plainResponse "Not found" 404)
  else
    let signature := default "" (X_Signature_Ed25519 request) in
    let timestamp := default "" (X_Signature_Timestamp request) in
    let text := request_text request in
    let! valid :=
      verifyDiscordSignature P (DISCORD_PUBLIC_KEY env) signature timestamp text in
    if negb valid
    then ret (plainResponse "Invalid signature" 401)
    else
      perform (EvJsonParse text);;
      let! interaction := lift (JSON_parse P text) in
      match type interaction with
      | Some t =>
          if t =? InteractionType.PING then ret handlePing
          else if t =? InteractionType.APPLICATION_COMMAND
               then handleSlashCommand w interaction
          else if t =? InteractionType.MESSAGE_COMPONENT
               then handleButtonClick interaction env
          else ret (plainResponse "Unknown interaction type" 400)
      | None => ret (plainResponse "Unknown interaction type" 400)
      end.

(** ** Sample inputs *)

Definition mkGif (u : string) (t : option string) : Gif :=
  {| gif_id := 0; url := u; tags := t; width := 0; height := 0 |}.

(** A platform that checks lengths the way Web Crypto does before any
    curve arithmetic: a raw Ed25519 key has 32 bytes, otherwise
    [importKey] throws [DataError]; a signature has 64 bytes, otherwise
    [verify] answers false.  What a signature of the right length is
    worth, and what a body parses to, are left to the arguments. *)
Definition lengthCheckingPlatform
    (valid : list Z -> list Z -> list Z -> bool)
    (parse : string -> result Interaction) : Platform :=
  {| CryptoKey := list Z;
     importKey := fun raw =>
       if (length raw =? 32)%nat then Returned raw else Thrown DataError;
     verify := fun key sig message =>
       Returned ((length sig =? 64)%nat && valid key sig message);
     JSON_parse := parse |}.

(** The same with every signature of 64 bytes taken as valid. *)
Definition samplePlatform (parse : string -> result Interaction) : Platform :=
  lengthCheckingPlatform (fun _ _ _ => true) parse.

Definition sampleEnv (publicKey : string) : Env :=
  {| DISCORD_PUBLIC_KEY := publicKey;
     DISCORD_TOKEN := "bot-token";
     DISCORD_APP_ID := "app" |}.

Definition sampleKey : string :=
  "00112233445566778899aabbccddeeff00112233445566778899aabbccddeeff".

Definition sampleSignature : string := sampleKey +:+ sampleKey.

Definition postRequest (signature : option string) (text : string) : Request :=
  {| method := "POST";
     X_Signature_Ed25519 := signature;
     X_Signature_Timestamp := Some "1700000000";
     request_text := text |}.

Definition getRequest : Request :=
  {| method := "GET";
     X_Signature_Ed25519 := None;
     X_Signature_Timestamp := None;
     request_text := "" |}.

(** An interaction of a type the handler does not know. *)
Definition strangeInteraction : Interaction :=
  {| type := Some 9; data := None; token := "tok" |}.

(** A [/gifland] command with the given value of its search option. *)
Definition command (term : option string) : Interaction :=
  {| type := Some InteractionType.APPLICATION_COMMAND;
     data := Some {| options := Some [ {| name := "search"; value := term |} ];
                     custom_id := None |};
     token := "tok" |}.

Definition click (customId : option string) : Interaction :=
  {| type := Some InteractionType.MESSAGE_COMPONENT;
     data := Some {| options := None; custom_id := customId |};
     token := "tok" |}.

Definition worldOf (gifs : list Gif) (rnd : nat -> N) : World :=
  {| catalog := HttpReply 200 (Some gifs); random := rnd |}.

(** [n] GIFs tagged cat, named c0.gif, c1.gif and so on. *)
Definition cats (n : nat) : list Gif :=
  map (fun k => mkGif ("c" +:+ JS.decimal k +:+ ".gif") (Some "cat")) (seq 0 n).

(** A catalog of twelve cats and random bits that move with the calls. *)
Definition crowdedWorld : World :=
  worldOf (cats 12) (fun k => (N.of_nat k * 2 ^ 50 + 12345)%N).

(** ** Vocabulary of the statements *)

(** The header that gives the number of GIFs found. *)
Definition exactCountHeader (n : nat) (query : string) : string :=
  "Found " +:+ JS.decimal n +:+ " GIF" +:+ (if (n =? 1)%nat then "" else "s")
  +:+ " for **" +:+ query +:+ "**".

(** The header of a list cut at ten. *)
Definition truncatedHeader (query : string) : string :=
  "Showing 10 GIFs for **" +:+ query
  +:+ "** — try a more specific search to narrow results.".

(** The identifier of the button of a GIF of the given path and tags. *)
Definition customIdOf (path tgs : string) : string :=
  button_custom_id (gifButton (mkGif path (Some tgs))).

(** Two strings that differ by the case of their letters at most. *)
Definition sameIgnoringCase (s t : string) : Prop :=
  JS.toLowerCase s = JS.toLowerCase t.

(** [needle] stands somewhere in [hay], letter case left aside. *)
Definition containsIgnoringCase (hay needle : string) : Prop :=
  exists pre mid post, hay = pre +:+ mid +:+ post /\ sameIgnoringCase mid needle.

(** The GIF has the term in its tags, when it has tags, or in its url. *)
Definition matchesTerm (term : string) (g : Gif) : Prop :=
  (exists t, tags g = Some t /\ containsIgnoringCase t term)
  \/ containsIgnoringCase (url g) term.

(** Hexadecimal text that encodes bytes: digits only, two per byte. *)
Definition isHexDigit (c : ascii) : bool :=
  match JS.hex_digit c with
  | Some _ => true
  | None => false
  end.

Definition wellFormedHex (s : string) : bool :=
  Nat.even (String.length s) && forallb isHexDigit (list_ascii_of_string s).

(** The one request to the catalog. *)
Definition catalogRequest : effect := EvFetch "https://gif.land/api".

(** No answer, a status outside 200-299, or a body that is no JSON:
    [fetchGifs] throws. *)
Definition catalogUnavailable (w : World) : Prop :=
  match catalog w with
  | NetworkFailure => True
  | HttpReply st json => ok st = false \/ json = None
  end.

(** The verification of a request, as [fetch] calls it. *)
Definition verification (P : Platform) (request : Request) (env : Env) : M bool :=
  verifyDiscordSignature P (DISCORD_PUBLIC_KEY env)
    (default "" (X_Signature_Ed25519 request))
    (default "" (X_Signature_Timestamp request))
    (request_text request).

(** An interaction type the switch has no case for. *)
Definition unknownType (interaction : Interaction) : Prop :=
  type interaction <> Some InteractionType.PING
  /\ type interaction <> Some InteractionType.APPLICATION_COMMAND
  /\ type interaction <> Some InteractionType.MESSAGE_COMPONENT.

(** The GIFs a search shows: the matches, shuffled, the first ten. *)
Definition shownGifs (w : World) (matches : list Gif) : list Gif :=
  take MAX_GIFS_SHOWN (shuffled (random w) matches).

(** Every swap of the loop of [shuffled] reads inside the array. *)
Fixpoint swaps_in_range {T} (rnd : nat -> N) (k i : nat) (a : list T) : Prop :=
  match i with
  | O => True
  | S i' =>
      let j := JS.floor_random_times (rnd k) (i + 1) in
      is_Some (a !! i) /\ is_Some (a !! j)
      /\ swaps_in_range rnd (S k) i' (swap a i j)
  end.

(** A row of buttons has one or two of them. *)
Definition rowWellFormed (row : ActionRow) : Prop :=
  (1 <= length (row_components row) <= 2)%nat.

(** A value a [Uint8Array] can hold. *)
Definition isByte (b : Z) : Prop := 0 <= b < 256.

(** The button built for a path and tags gives them back on a click:
    its identifier passes the test of the click handler and decodes to
    the path and the tags. *)
Definition roundTrips (path tgs : string) : Prop :=
  JS.startsWith (customIdOf path tgs) "post:" = true
  /\ decodePayload (JS.drop (String.length "post:") (customIdOf path tgs)) = (path, tgs).

(** The message of one GIF: one embed, nothing else, shown to all. *)
Definition singleGifMessage (g : Gif) : Message :=
  {| content := None; embeds := Some [gifEmbed g]; components := None; flags := None |}.

(** A string of white space only (the empty string is one). *)
Fixpoint allWhite (s : string) : bool :=
  match s with
  | String c r => JS.is_white c && allWhite r
  | EmptyString => true
  end.

(** What [searchOption?.value] is for an interaction. *)
Definition searchValue (interaction : Interaction) : option string :=
  List.find (fun o => String.eqb (name o) "search")
            (default [] (data interaction ≫= options))
  ≫= value.

(** The random bits that make [Math.floor(Math.random() * n)] be [j]. *)
Definition bitsFor (j n : nat) : N :=
  ((N.of_nat j * 2 ^ 53 + N.of_nat n - 1) / N.of_nat n)%N.

(** The row of the buttons of the GIFs at [i] and [i + 1]. *)
Definition rowAt (gifs : list Gif) (i : nat) : ActionRow :=
  {| row_type := 1; row_components := map gifButton (take 2 (drop i gifs)) |}.

(** The byte that the two characters of [hex] at [2 * k] stand for. *)
Definition byteAt (hex : string) (k : nat) : Z :=
  JS.ToUint8 (JS.parseInt16 (JS.slice (2 * k) (2 * k + 2) hex)).

(** A byte written as two hexadecimal digits, in lower case. *)
Definition hexChar (d : Z) : ascii :=
  ascii_of_N (Z.to_N (if d <? 10 then 48 + d else 87 + d)).

Definition hexPair (b : Z) : string :=
  String (hexChar (b / 16)) (String (hexChar (b mod 16)) "").

Fixpoint hexOfBytes (bytes : list Z) : string :=
  match bytes with
  | b :: rest => hexPair b +:+ hexOfBytes rest
  | [] => ""
  end.

(** The switch of [fetch] on the type of the interaction. *)
Definition dispatch (w : World) (interaction : Interaction) (env : Env) : M Response :=
  match type interaction with
  | Some t =>
      if t =? InteractionType.PING then ret handlePing
      else if t =? InteractionType.APPLICATION_COMMAND
           then handleSlashCommand w interaction
      else if t =? InteractionType.MESSAGE_COMPONENT
           then handleButtonClick interaction env
      else ret (plainResponse "Unknown interaction type" 400)
  | None => ret (plainResponse "Unknown interaction type" 400)
  end.



(** * Properties *)

(** ** The monad *)

Lemma bind_ret {A B} (a : A) (k : A -> M B) : bind (ret a) k = k a.
Proof. unfold bind, ret. destruct (k a) as [log r]. reflexivity. Qed.

Lemma bind_throw {A B} (e : JsError) (k : A -> M B) : bind (throw e) k = throw e.
Proof. reflexivity. Qed.

Lemma bind_lift_returned {A B} (a : A) (k : A -> M B) :
  bind (lift (Returned a)) k = k a.
Proof. apply bind_ret. Qed.

Lemma bind_lift_thrown {A B} (e : JsError) (k : A -> M B) :
  bind (lift (Thrown e)) k = ([], Thrown e).
Proof. reflexivity. Qed.

Lemma bind_perform {B} (ev : effect) (k : unit -> M B) :
  bind (perform ev) k = (ev :: fst (k tt), snd (k tt)).
Proof. unfold bind, perform. destruct (k tt) as [log r]. reflexivity. Qed.

(** ** The catalog fetch *)

(** The fetch of the catalog is one request, whatever comes back. *)
Lemma fetchGifs_effects w : effects (fetchGifs w) = [catalogRequest].
Proof.
  unfold fetchGifs. rewrite bind_perform. unfold effects. simpl.
  destruct (catalog w) as [|st json]; [reflexivity|].
  destruct (ok st); simpl; [destruct json|]; reflexivity.
Qed.

Lemma fetchGifs_ok w st gifs :
  catalog w = HttpReply st (Some gifs) -> ok st = true ->
  fetchGifs w = ([catalogRequest], Returned gifs).
Proof.
  intros Hc Hok. unfold fetchGifs. rewrite bind_perform, Hc, Hok. reflexivity.
Qed.

Lemma fetchGifs_unavailable w :
  catalogUnavailable w -> exists e, fetchGifs w = ([catalogRequest], Thrown e).
Proof.
  unfold catalogUnavailable, fetchGifs. rewrite bind_perform.
  destruct (catalog w) as [|st json]; intros H.
  - eexists. reflexivity.
  - destruct (ok st) eqn:Hok; simpl.
    + destruct H as [H|H]; [discriminate|]. subst json. eexists. reflexivity.
    + eexists. reflexivity.
Qed.

(** The command handler when the catalog is not there. *)
Lemma handleSlashCommand_unavailable w interaction :
  catalogUnavailable w ->
  handleSlashCommand w interaction
  = ([catalogRequest], Returned (channelMessage unreachableMessage)).
Proof.
  intros Hun. destruct (fetchGifs_unavailable w Hun) as [e He].
  unfold handleSlashCommand, attempt. rewrite He. reflexivity.
Qed.

(** The command handler once the catalog is there. *)
Lemma handleSlashCommand_fetched w interaction st allGifs :
  catalog w = HttpReply st (Some allGifs) -> ok st = true ->
  handleSlashCommand w interaction =
    let query := searchQuery interaction in
    bind ([catalogRequest], Returned tt) (fun _ =>
      if negb (nonEmpty query)
      then
        let gif := allGifs !! JS.floor_random_times (random w 0) (length allGifs) in
        let! message := lift (buildSingleGifMessage gif) in
        ret (channelMessage message)
      else
        let matches := searchMatches allGifs query in
        if (length matches =? 0)%nat
        then ret (channelMessage (noResultsMessage query))
        else ret (channelMessage
                    (buildGifPicker
                       (take MAX_GIFS_SHOWN (shuffled (random w) matches)) query))).
Proof.
  intros Hc Hok. unfold handleSlashCommand, attempt.
  rewrite (fetchGifs_ok w st allGifs Hc Hok). reflexivity.
Qed.

(** ** A command without search term on an empty catalog *)

(** C1.  The specification asks that a command without (or with a
    blank) search term, answered by an empty catalog, be handled as an
    outcome of its own, such as a no-results reply.  The code does not:
    index 0 of the empty array is undefined, [buildSingleGifMessage]
    reads [gif.url] of it, and the handler throws [TypeError] after its
    one request to the catalog.  The search path, next to it, does test
    for the empty list. *)
Theorem empty_catalog_random_pick_throws (w : World) (interaction : Interaction) (st : nat) :
  catalog w = HttpReply st (Some []) ->
  ok st = true ->
  searchQuery interaction = "" ->
  handleSlashCommand w interaction = ([catalogRequest], Thrown TypeError).
Proof.
  intros Hc Hok Hq.
  rewrite (handleSlashCommand_fetched w interaction st [] Hc Hok).
  cbv zeta. rewrite Hq. reflexivity.
Qed.

Lemma empty_catalog_random_pick_throws_witness :
  handleSlashCommand (worldOf [] (fun _ => 12345%N)) (command (Some "  "))
  = ([catalogRequest], Thrown TypeError).
Proof.
  apply (empty_catalog_random_pick_throws _ _ 200); reflexivity.
Defined.

(** ** The catalog is unavailable *)

(** C6.  When the catalog fetch fails (no answer, or a status that is
    not a success; a body that is no JSON counts too), the command
    handler has made its one request and no other, throws nothing, and
    answers with status 200 a channel message, flagged ephemeral, that
    says gif.land could not be reached. *)
Theorem catalog_unavailable_reply (w : World) (interaction : Interaction) :
  catalogUnavailable w ->
  handleSlashCommand w interaction =
    ([EvFetch "https://gif.land/api"],
     Returned
       {| status := 200;
          headers := [("Content-Type", "application/json")];
          body := JsonBody
            {| response_type := 4;
               response_data := Some
                 {| content :=
                      Some "Could not reach gif.land right now. Try again in a moment.";
                    embeds := None;
                    components := None;
                    flags := Some 64 |} |} |}).
Proof.
  intros Hun. unfold handleSlashCommand, attempt.
  destruct (fetchGifs_unavailable w Hun) as [e He]. rewrite He.
  cbn [fst snd]. reflexivity.
Qed.

Lemma catalog_unavailable_reply_witness :
  handleSlashCommand {| catalog := HttpReply 500 None; random := fun _ => 0%N |}
                     (command (Some "cat"))
  = ([catalogRequest], Returned (channelMessage unreachableMessage))
  /\ handleSlashCommand {| catalog := NetworkFailure; random := fun _ => 0%N |}
                        (command None)
     = ([catalogRequest], Returned (channelMessage unreachableMessage)).
Proof.
  split.
  - apply (catalog_unavailable_reply
             {| catalog := HttpReply 500 None; random := fun _ => 0%N |}
             (command (Some "cat"))).
    left. reflexivity.
  - apply (catalog_unavailable_reply
             {| catalog := NetworkFailure; random := fun _ => 0%N |} (command None)).
    exact I.
Defined.

(** ** The gates of the main handler *)

Lemma verification_effects P request env : effects (verification P request env) = [].
Proof.
  unfold verification, verifyDiscordSignature, lift, bind, effects.
  destruct (importKey P _) as [key|e]; [|reflexivity].
  destruct (verify P key _ _); reflexivity.
Qed.

Lemma verification_outcome P request env r :
  outcome (verification P request env) = r -> verification P request env = ([], r).
Proof.
  intros Hr. pose proof (verification_effects P request env) as He.
  destruct (verification P request env) as [log r']. unfold effects, outcome in *.
  simpl in He, Hr. congruence.
Qed.

Lemma fetch_post P w request env :
  method request = "POST" ->
  fetch P w request env =
    let! valid := verification P request env in
    if negb valid
    then ret (plainResponse "Invalid signature" 401)
    else
      perform (EvJsonParse (request_text request));;
      let! interaction := lift (JSON_parse P (request_text request)) in
      match type interaction with
      | Some t =>
          if t =? InteractionType.PING then ret handlePing
          else if t =? InteractionType.APPLICATION_COMMAND
               then handleSlashCommand w interaction
          else if t =? InteractionType.MESSAGE_COMPONENT
               then handleButtonClick interaction env
          else ret (plainResponse "Unknown interaction type" 400)
      | None => ret (plainResponse "Unknown interaction type" 400)
      end.
Proof. intros Hm. unfold fetch. rewrite Hm. reflexivity. Qed.

(** C7.  The three gates of the main handler.  A method other than
    POST is answered 404.  A POST whose verification returns false is
    answered 401 with no effect performed: no parse of the body, no
    request to the catalog, no follow-up.  A POST that verifies and
    parses to an interaction whose type is none of ping, command and
    component click is answered 400, the parse being the only effect. *)
Theorem fetch_gates (P : Platform) (w : World) (request : Request) (env : Env) :
  (method request <> "POST" ->
     fetch P w request env = ([], Returned (plainResponse "Not found" 404)))
  /\ (method request = "POST" ->
      outcome (verification P request env) = Returned false ->
      fetch P w request env = ([], Returned (plainResponse "Invalid signature" 401)))
  /\ (forall interaction,
      method request = "POST" ->
      outcome (verification P request env) = Returned true ->
      JSON_parse P (request_text request) = Returned interaction ->
      unknownType interaction ->
      fetch P w request env =
        ([EvJsonParse (request_text request)],
         Returned (plainResponse "Unknown interaction type" 400))).
Proof.
  split; [|split].
  - intros Hm. unfold fetch.
    destruct (String.eqb_spec (method request) "POST") as [E|_]; [contradiction|].
    reflexivity.
  - intros Hm Hv. rewrite (fetch_post P w request env Hm).
    rewrite (verification_outcome _ _ _ _ Hv). reflexivity.
  - intros interaction Hm Hv Hp (H1 & H2 & H3).
    rewrite (fetch_post P w request env Hm).
    rewrite (verification_outcome _ _ _ _ Hv).
    change (@pair (list effect) (result bool) [] (Returned true)) with (ret true).
    rewrite bind_ret. simpl negb. cbv iota.
    rewrite bind_perform, Hp, bind_lift_returned.
    destruct (type interaction) as [t|]; [|reflexivity].
    unfold InteractionType.PING, InteractionType.APPLICATION_COMMAND,
      InteractionType.MESSAGE_COMPONENT in *.
    destruct (Z.eqb_spec t 1) as [->|_]; [contradiction|].
    destruct (Z.eqb_spec t 2) as [->|_]; [contradiction|].
    destruct (Z.eqb_spec t 3) as [->|_]; [contradiction|].
    reflexivity.
Qed.

Lemma fetch_gates_witness :
  fetch (samplePlatform (fun _ => Thrown SyntaxError)) (worldOf [] (fun _ => 0%N))
        getRequest (sampleEnv sampleKey)
    = ([], Returned (plainResponse "Not found" 404))
  /\ fetch (samplePlatform (fun _ => Thrown SyntaxError)) (worldOf [] (fun _ => 0%N))
           (postRequest (Some "abcd") "{}") (sampleEnv sampleKey)
    = ([], Returned (plainResponse "Invalid signature" 401))
  /\ fetch (samplePlatform (fun _ => Returned strangeInteraction))
           (worldOf [] (fun _ => 0%N))
           (postRequest (Some sampleSignature) "{}") (sampleEnv sampleKey)
    = ([EvJsonParse "{}"], Returned (plainResponse "Unknown interaction type" 400)).
Proof.
  split; [|split].
  - apply (proj1 (fetch_gates (samplePlatform (fun _ => Thrown SyntaxError))
                    (worldOf [] (fun _ => 0%N)) getRequest (sampleEnv sampleKey))).
    discriminate.
  - apply (proj1 (proj2 (fetch_gates (samplePlatform (fun _ => Thrown SyntaxError))
                           (worldOf [] (fun _ => 0%N))
                           (postRequest (Some "abcd") "{}") (sampleEnv sampleKey))));
      reflexivity.
  - apply (proj2 (proj2 (fetch_gates (samplePlatform (fun _ => Returned strangeInteraction))
                           (worldOf [] (fun _ => 0%N))
                           (postRequest (Some sampleSignature) "{}")
                           (sampleEnv sampleKey)))
             strangeInteraction);
      try reflexivity.
    repeat split; discriminate.
Defined.

(** ** A click on an unknown button *)

(** C9.  A component click whose identifier (the empty string when the
    payload has none) does not start with post: is answered by an edit
    of the message: the text Unknown action., no embed, no component.
    No follow-up is sent. *)
Theorem unknown_action_reply (interaction : Interaction) (env : Env) :
  JS.startsWith (default "" (data interaction ≫= custom_id)) "post:" = false ->
  handleButtonClick interaction env =
    ([],
     Returned
       {| status := 200;
          headers := [("Content-Type", "application/json")];
          body := JsonBody
            {| response_type := 7;
               response_data := Some
                 {| content := Some "Unknown action.";
                    embeds := Some [];
                    components := Some [];
                    flags := None |} |} |}).
Proof.
  intros Hp. unfold handleButtonClick. rewrite Hp. reflexivity.
Qed.

Lemma unknown_action_reply_witness :
  effects (handleButtonClick (click (Some "delete:a.gif")) (sampleEnv sampleKey)) = []
  /\ effects (handleButtonClick (click None) (sampleEnv sampleKey)) = [].
Proof.
  split.
  - rewrite (unknown_action_reply (click (Some "delete:a.gif")) (sampleEnv sampleKey));
      reflexivity.
  - rewrite (unknown_action_reply (click None) (sampleEnv sampleKey)); reflexivity.
Defined.

(** ** Random picks and the shuffle *)

Lemma floor_random_times_lt (r : N) (n : nat) :
  (0 < n)%nat -> (JS.floor_random_times r n < n)%nat.
Proof.
  intros Hn. unfold JS.floor_random_times.
  assert (H : ((r mod 2 ^ 53) * N.of_nat n / 2 ^ 53 < N.of_nat n)%N).
  { apply N.Div0.div_lt_upper_bound.
    apply N.mul_lt_mono_pos_r; [lia|].
    apply N.mod_lt. discriminate. }
  lia.
Qed.

Lemma floor_random_times_0 (r : N) : JS.floor_random_times r 0 = 0%nat.
Proof.
  unfold JS.floor_random_times. change (N.of_nat 0) with 0%N.
  rewrite N.mul_0_r. reflexivity.
Qed.

Lemma insert_exchange {T} (a : list T) (i : nat) (x y : T) :
  a !! i = Some x -> x :: <[i := y]> a ≡ₚ y :: a.
Proof.
  revert i. induction a as [|t a IH]; intros [|i] Hi; simplify_eq/=.
  - apply perm_swap.
  - rewrite (perm_swap t x), (IH i Hi). apply perm_swap.
Qed.

Lemma swap_Permutation {T} (a : list T) (i j : nat) : swap a i j ≡ₚ a.
Proof.
  unfold swap.
  destruct (a !! i) as [x|] eqn:Hi; [|reflexivity].
  destruct (a !! j) as [y|] eqn:Hj; [|reflexivity].
  destruct (decide (i = j)) as [->|Hne].
  - assert (x = y) as -> by congruence.
    rewrite (list_insert_id a j y Hj), (list_insert_id a j y Hj). reflexivity.
  - apply (Permutation_cons_inv (a := y)).
    rewrite (insert_exchange (<[i := y]> a) j y x).
    + apply (insert_exchange a i x y Hi).
    + rewrite list_lookup_insert_ne by exact Hne. exact Hj.
Qed.

Lemma shuffle_loop_Permutation {T} rnd (i k : nat) (a : list T) :
  shuffle_loop rnd k i a ≡ₚ a.
Proof.
  revert k a. induction i as [|i IH]; intros k a; simpl; [reflexivity|].
  rewrite IH. apply swap_Permutation.
Qed.

Lemma swap_length {T} (a : list T) (i j : nat) : length (swap a i j) = length a.
Proof. apply Permutation_length, swap_Permutation. Qed.

Lemma shuffle_loop_in_range {T} rnd (i k : nat) (a : list T) :
  (i < length a)%nat -> swaps_in_range rnd k i a.
Proof.
  revert k a. induction i as [|i IH]; intros k a Hi; cbn [swaps_in_range]; [exact I|].
  pose proof (floor_random_times_lt (rnd k) (S i + 1) ltac:(lia)) as Hj.
  split; [apply lookup_lt_is_Some; lia|].
  split; [apply lookup_lt_is_Some; lia|].
  apply IH. rewrite swap_length. lia.
Qed.

Lemma shuffled_in_range {T} rnd (arr : list T) :
  swaps_in_range rnd 0 (length arr - 1) arr.
Proof.
  destruct arr as [|x arr]; [exact I|].
  apply shuffle_loop_in_range. simpl. lia.
Qed.

(** [shuffled] returns the elements of its argument, in some order. *)
Lemma shuffled_Permutation {T} rnd (arr : list T) : shuffled rnd arr ≡ₚ arr.
Proof. apply shuffle_loop_Permutation. Qed.

Lemma shuffled_length {T} rnd (arr : list T) : length (shuffled rnd arr) = length arr.
Proof. apply Permutation_length, shuffled_Permutation. Qed.

(** ** The rows of buttons *)

Section ActionRows.

Variable gifs : list Gif.

Lemma actionRows_loop_spec (fuel i : nat) :
  (length gifs <= i + 2 * fuel)%nat ->
  concat (map row_components (actionRows_loop fuel i gifs)) = map gifButton (drop i gifs)
  /\ Forall rowWellFormed (actionRows_loop fuel i gifs)
  /\ (2 * length (actionRows_loop fuel i gifs) <= length gifs - i + 1)%nat.
Proof.
  revert i. induction fuel as [|fuel IH]; intros i Hfuel; simpl.
  - rewrite drop_ge by lia. repeat split; [constructor | lia].
  - destruct (Nat.ltb_spec i (length gifs)) as [Hi|Hi].
    + destruct (IH (i + 2)%nat ltac:(lia)) as (Hc & Hw & Hn).
      unfold array_slice. replace (i + 2 - i)%nat with 2%nat by lia.
      simpl. rewrite Hc, <- map_app.
      rewrite <- (drop_drop gifs 2 i), take_drop.
      repeat split.
      * constructor; [|exact Hw].
        unfold rowWellFormed. simpl. rewrite length_map, length_take, length_drop. lia.
      * lia.
    + rewrite drop_ge by lia. repeat split; [constructor | simpl; lia].
Qed.

(** The loop stops on its own test: more fuel changes nothing. *)
Lemma actionRows_loop_fuel (fuel extra i : nat) :
  (length gifs <= i + 2 * fuel)%nat ->
  actionRows_loop (fuel + extra) i gifs = actionRows_loop fuel i gifs.
Proof.
  revert i. induction fuel as [|fuel IH]; intros i Hfuel; simpl.
  - destruct extra; simpl; [reflexivity|].
    destruct (Nat.ltb_spec i (length gifs)); [lia | reflexivity].
  - destruct (Nat.ltb_spec i (length gifs)); [|reflexivity].
    rewrite IH by lia. reflexivity.
Qed.

Lemma actionRows_buttons :
  concat (map row_components (actionRows gifs)) = map gifButton gifs.
Proof. apply (actionRows_loop_spec (length gifs) 0). lia. Qed.

Lemma actionRows_wellFormed : Forall rowWellFormed (actionRows gifs).
Proof. apply (actionRows_loop_spec (length gifs) 0). lia. Qed.

Lemma actionRows_count : (2 * length (actionRows gifs) <= length gifs + 1)%nat.
Proof.
  pose proof (actionRows_loop_spec (length gifs) 0 ltac:(lia)) as (_ & _ & H).
  unfold actionRows. lia.
Qed.

End ActionRows.

(** ** The picker of a search *)

Lemma shownGifs_length w matches :
  length (shownGifs w matches) = Nat.min 10 (length matches).
Proof. unfold shownGifs. rewrite length_take, shuffled_length. reflexivity. Qed.

Lemma shownGifs_submseteq w matches : shownGifs w matches ⊆+ matches.
Proof.
  unfold shownGifs. etransitivity; [apply submseteq_take|].
  apply Permutation_submseteq, shuffled_Permutation.
Qed.

Lemma shownGifs_all w matches :
  (length matches <= 10)%nat -> shownGifs w matches ≡ₚ matches.
Proof.
  intros Hn. unfold shownGifs.
  rewrite take_ge by (rewrite shuffled_length; exact Hn).
  apply shuffled_Permutation.
Qed.

Lemma handleSlashCommand_search w interaction st allGifs :
  catalog w = HttpReply st (Some allGifs) -> ok st = true ->
  searchQuery interaction <> "" ->
  searchMatches allGifs (searchQuery interaction) <> [] ->
  handleSlashCommand w interaction =
    ([catalogRequest],
     Returned (channelMessage
                 (buildGifPicker
                    (shownGifs w (searchMatches allGifs (searchQuery interaction)))
                    (searchQuery interaction)))).
Proof.
  intros Hc Hok Hq Hm.
  rewrite (handleSlashCommand_fetched w interaction st allGifs Hc Hok). cbv zeta.
  destruct (searchQuery interaction) as [|c q]; [contradiction|].
  destruct (searchMatches allGifs (String c q)) as [|g matches]; [contradiction|].
  reflexivity.
Qed.

(** What the command handler can do, case by case. *)
Lemma handleSlashCommand_cases w interaction :
  let query := searchQuery interaction in
  exists r, handleSlashCommand w interaction = ([catalogRequest], r)
    /\ (r = Thrown TypeError
        \/ r = Returned (channelMessage unreachableMessage)
        \/ r = Returned (channelMessage (noResultsMessage query))
        \/ (exists g, r = Returned (channelMessage
                           {| content := None; embeds := Some [gifEmbed g];
                              components := None; flags := None |}))
        \/ (exists matches, matches <> [] /\
              r = Returned (channelMessage
                              (buildGifPicker (shownGifs w matches) query)))).
Proof.
  intros query. subst query.
  destruct (catalog w) as [|st [allGifs|]] eqn:Hc.
  - eexists. split; [|right; left; reflexivity].
    apply handleSlashCommand_unavailable. unfold catalogUnavailable. rewrite Hc. exact I.
  - destruct (ok st) eqn:Hok.
    + rewrite (handleSlashCommand_fetched w interaction st allGifs Hc Hok). cbv zeta.
      destruct (searchQuery interaction) as [|c q] eqn:Hq; simpl negb; cbv iota.
      * destruct (allGifs !! _) as [g|]; eexists; (split; [reflexivity|]).
        -- right; right; right; left. eexists. reflexivity.
        -- left. reflexivity.
      * destruct (searchMatches allGifs (String c q)) as [|g matches] eqn:Hm;
          eexists; (split; [reflexivity|]).
        -- right; right; left. reflexivity.
        -- right; right; right; right. exists (g :: matches). split; [discriminate|].
           reflexivity.
    + eexists. split; [|right; left; reflexivity].
      apply handleSlashCommand_unavailable. unfold catalogUnavailable. rewrite Hc.
      left. exact Hok.
  - eexists. split; [|right; left; reflexivity].
    apply handleSlashCommand_unavailable. unfold catalogUnavailable. rewrite Hc.
    right. reflexivity.
Qed.

(** C8.  Whatever message with rows of buttons the command handler
    answers: every row has one or two buttons, there are at most five
    rows, so at most ten buttons, and there is one embed per button. *)
Theorem picker_rows_bound (w : World) (interaction : Interaction)
    (log : list effect) (resp : Response) (payload : InteractionResponse)
    (message : Message) (rows : list ActionRow) :
  handleSlashCommand w interaction = (log, Returned resp) ->
  body resp = JsonBody payload ->
  response_data payload = Some message ->
  components message = Some rows ->
  Forall rowWellFormed rows
  /\ (length rows <= 5)%nat
  /\ (length (concat (map row_components rows)) <= 10)%nat
  /\ exists shown, embeds message = Some shown
       /\ length shown = length (concat (map row_components rows)).
Proof.
  intros Hrun Hbody Hdata Hrows.
  destruct (handleSlashCommand_cases w interaction) as (r & Hr & Hcases).
  rewrite Hr in Hrun. injection Hrun as <- ->.
  destruct Hcases as [Hc|[Hc|[Hc|[[g Hc]|(matches & Hne & Hc)]]]];
    try discriminate Hc; injection Hc as ->; simpl in Hbody;
    injection Hbody as <-; simpl in Hdata; injection Hdata as <-;
    simpl in Hrows; try discriminate Hrows.
  injection Hrows as <-.
  pose proof (shownGifs_length w matches) as Hlen.
  pose proof (actionRows_count (shownGifs w matches)) as Hcount.
  rewrite actionRows_buttons, length_map.
  split; [apply actionRows_wellFormed|].
  split; [lia|]. split; [lia|].
  eexists. split; [reflexivity|]. rewrite length_map. reflexivity.
Qed.

Lemma picker_rows_bound_witness :
  Forall rowWellFormed (actionRows (shownGifs crowdedWorld (cats 12)))
  /\ (length (actionRows (shownGifs crowdedWorld (cats 12))) <= 5)%nat
  /\ (length (concat (map row_components
                        (actionRows (shownGifs crowdedWorld (cats 12))))) <= 10)%nat
  /\ exists shown,
       Some (map gifEmbed (shownGifs crowdedWorld (cats 12))) = Some shown
       /\ length shown
          = length (concat (map row_components
                              (actionRows (shownGifs crowdedWorld (cats 12))))).
Proof.
  apply (picker_rows_bound crowdedWorld (command (Some " CAT "))
           [catalogRequest]
           (channelMessage (buildGifPicker (shownGifs crowdedWorld (cats 12)) "CAT"))
           {| response_type := InteractionResponseType.CHANNEL_MESSAGE_WITH_SOURCE;
              response_data :=
                Some (buildGifPicker (shownGifs crowdedWorld (cats 12)) "CAT") |}
           (buildGifPicker (shownGifs crowdedWorld (cats 12)) "CAT"));
    vm_compute; reflexivity.
Defined.

(** ** The header of the picker *)

Lemma headerText_exact gifs query :
  length gifs <> 10%nat -> headerText gifs query = exactCountHeader (length gifs) query.
Proof.
  intros Hn. unfold headerText, MAX_GIFS_SHOWN.
  destruct (Nat.eqb_spec (length gifs) 10); [contradiction|reflexivity].
Qed.

Lemma headerText_truncated gifs query :
  length gifs = 10%nat -> headerText gifs query = truncatedHeader query.
Proof. intros Hn. unfold headerText, MAX_GIFS_SHOWN. rewrite Hn. reflexivity. Qed.

(** C4, as the code has it.  A search with at least one match answers
    a picker of the shown GIFs, one embed each.  With ten matches or
    more, exactly ten of the matches are shown and the header is the
    one that asks for a more specific search: this is also the header
    of exactly ten matches, none of which is left out.  With fewer
    than ten, all the matches are shown and the header gives their
    number, GIF in the singular for one and in the plural otherwise. *)
Theorem picker_header_and_count (w : World) (interaction : Interaction)
    (st : nat) (allGifs : list Gif) :
  catalog w = HttpReply st (Some allGifs) ->
  ok st = true ->
  searchQuery interaction <> "" ->
  searchMatches allGifs (searchQuery interaction) <> [] ->
  exists shown header,
    handleSlashCommand w interaction =
      ([catalogRequest],
       Returned (channelMessage
                   {| content := Some header;
                      embeds := Some (map gifEmbed shown);
                      components := Some (actionRows shown);
                      flags := Some EPHEMERAL |}))
    /\ ((10 <= length (searchMatches allGifs (searchQuery interaction)))%nat ->
        length shown = 10%nat
        /\ shown ⊆+ searchMatches allGifs (searchQuery interaction)
        /\ header = truncatedHeader (searchQuery interaction))
    /\ ((length (searchMatches allGifs (searchQuery interaction)) < 10)%nat ->
        shown ≡ₚ searchMatches allGifs (searchQuery interaction)
        /\ header = exactCountHeader
                      (length (searchMatches allGifs (searchQuery interaction)))
                      (searchQuery interaction)).
Proof.
  intros Hc Hok Hq Hm.
  set (query := searchQuery interaction) in *.
  set (matches := searchMatches allGifs query) in *.
  exists (shownGifs w matches), (headerText (shownGifs w matches) query).
  split; [apply (handleSlashCommand_search w interaction st allGifs Hc Hok Hq Hm)|].
  pose proof (shownGifs_length w matches) as Hlen.
  split; intros Hn.
  - split; [lia|]. split; [apply shownGifs_submseteq|].
    apply headerText_truncated. lia.
  - split; [apply shownGifs_all; lia|].
    rewrite headerText_exact by lia. f_equal. lia.
Qed.

Lemma picker_header_and_count_witness :
  exists shown header,
    handleSlashCommand (worldOf (cats 3) (fun k => (N.of_nat k * 2 ^ 51)%N))
                       (command (Some "cat")) =
      ([catalogRequest],
       Returned (channelMessage
                   {| content := Some header;
                      embeds := Some (map gifEmbed shown);
                      components := Some (actionRows shown);
                      flags := Some EPHEMERAL |}))
    /\ ((10 <= length (searchMatches (cats 3) "cat"))%nat ->
        length shown = 10%nat
        /\ shown ⊆+ searchMatches (cats 3) "cat"
        /\ header = truncatedHeader "cat")
    /\ ((length (searchMatches (cats 3) "cat") < 10)%nat ->
        shown ≡ₚ searchMatches (cats 3) "cat"
        /\ header = exactCountHeader (length (searchMatches (cats 3) "cat")) "cat").
Proof.
  apply (picker_header_and_count
           (worldOf (cats 3) (fun k => (N.of_nat k * 2 ^ 51)%N))
           (command (Some "cat")) 200 (cats 3)).
  - reflexivity.
  - reflexivity.
  - discriminate.
  - discriminate.
Defined.

(** With exactly ten matches, all shown, the header is not the one that
    gives the count: it is the one of a cut list. *)
Lemma ten_matches_header_counterexample :
  length (searchMatches (cats 10) "cat") = 10%nat
  /\ exists message,
       handleSlashCommand (worldOf (cats 10) (fun _ => 0%N)) (command (Some "cat"))
         = ([catalogRequest], Returned (channelMessage message))
       /\ content message
          = Some "Showing 10 GIFs for **cat** — try a more specific search to narrow results."
       /\ content message <> Some (exactCountHeader 10 "cat")
       /\ exactCountHeader 10 "cat" = "Found 10 GIFs for **cat**".
Proof.
  split; [reflexivity|].
  eexists. split; [vm_compute; reflexivity|].
  split; [reflexivity|]. split; [discriminate|reflexivity].
Qed.

(** ** Strings *)

Lemma string_app_cons (c : ascii) (s t : string) : String c s +:+ t = String c (s +:+ t).
Proof. reflexivity. Qed.

Lemma string_app_nil_l (t : string) : "" +:+ t = t.
Proof. reflexivity. Qed.

Lemma string_app_nil_r (s : string) : s +:+ "" = s.
Proof. induction s as [|c s IH]; [reflexivity|]. rewrite string_app_cons, IH. reflexivity. Qed.

Lemma string_app_assoc (s t u : string) : (s +:+ t) +:+ u = s +:+ t +:+ u.
Proof. induction s as [|c s IH]; [reflexivity|]. rewrite !string_app_cons, IH. reflexivity. Qed.

Lemma string_length_app (s t : string) :
  String.length (s +:+ t) = (String.length s + String.length t)%nat.
Proof. induction s as [|c s IH]; [reflexivity|]. rewrite string_app_cons. simpl. rewrite IH. reflexivity. Qed.

Lemma string_take_all (n : nat) (s : string) : (String.length s <= n)%nat -> JS.take n s = s.
Proof.
  revert n. induction s as [|c s IH]; intros [|n] Hn; simpl in *; try reflexivity; try lia.
  rewrite IH by lia. reflexivity.
Qed.

Lemma string_take_length (n : nat) (s : string) :
  String.length (JS.take n s) = Nat.min n (String.length s).
Proof.
  revert n. induction s as [|c s IH]; intros [|n]; simpl; try reflexivity.
  rewrite IH. reflexivity.
Qed.

Lemma string_drop_app_length (s t : string) : JS.drop (String.length s) (s +:+ t) = t.
Proof. induction s as [|c s IH]; [destruct t; reflexivity|]. rewrite string_app_cons. exact IH. Qed.

Lemma prefix_nil (s : string) : String.prefix "" s = true.
Proof. destruct s; reflexivity. Qed.

Lemma prefix_cons (c d : ascii) (p s : string) :
  String.prefix (String c p) (String d s) = bool_decide (c = d) && String.prefix p s.
Proof. simpl. destruct (ascii_dec c d) as [->|Hne]; case_bool_decide; try reflexivity; congruence. Qed.

Lemma prefix_app (p s : string) :
  String.prefix p s = true <-> exists post, s = p +:+ post.
Proof.
  revert s. induction p as [|c p IH]; intros s.
  - rewrite prefix_nil. split; [intros _; exists s; reflexivity | reflexivity].
  - destruct s as [|d s].
    + split; [discriminate | intros [post H]; rewrite string_app_cons in H; discriminate].
    + rewrite prefix_cons, andb_true_iff, bool_decide_eq_true, IH.
      split.
      * intros [-> [post ->]]. exists post. reflexivity.
      * intros [post H]. rewrite string_app_cons in H. injection H as -> ->. eauto.
Qed.

Lemma includes_nil (needle : string) :
  JS.includes "" needle = String.prefix needle "".
Proof. unfold JS.includes. apply orb_false_r. Qed.

Lemma includes_cons (c : ascii) (hay needle : string) :
  JS.includes (String c hay) needle
  = String.prefix needle (String c hay) || JS.includes hay needle.
Proof. reflexivity. Qed.

Lemma includes_prefix (hay needle : string) :
  String.prefix needle hay = true -> JS.includes hay needle = true.
Proof.
  intros Hp. destruct hay as [|c hay].
  - rewrite includes_nil. exact Hp.
  - rewrite includes_cons, Hp. reflexivity.
Qed.

(** [hay.includes(needle)] is true when [needle] stands somewhere in
    [hay]. *)
Lemma includes_spec (hay needle : string) :
  JS.includes hay needle = true <-> exists pre post, hay = pre +:+ needle +:+ post.
Proof.
  split.
  - induction hay as [|c hay IH].
    + rewrite includes_nil. intros H. apply prefix_app in H as [post H].
      exists "", post. exact H.
    + rewrite includes_cons, orb_true_iff. intros [H|H].
      * apply prefix_app in H as [post H]. exists "", post. exact H.
      * destruct (IH H) as (pre & post & ->). exists (String c pre), post. reflexivity.
  - intros (pre & post & ->). induction pre as [|c pre IH].
    + rewrite string_app_nil_l. apply includes_prefix, prefix_app. eauto.
    + rewrite string_app_cons, includes_cons, IH. apply orb_true_r.
Qed.

Lemma includes_cons_false (c : ascii) (hay needle : string) :
  JS.includes (String c hay) needle = false ->
  String.prefix needle (String c hay) = false /\ JS.includes hay needle = false.
Proof. rewrite includes_cons. apply orb_false_elim. Qed.

(** *** Splitting on the two bars *)

(** Whether a string starts with a bar depends on its first character
    only. *)
Lemma prefix_bar_app (s t : string) :
  String.prefix "|" (s +:+ "|") = String.prefix "|" (s +:+ "||" +:+ t).
Proof.
  destruct s as [|c s]; [reflexivity|].
  rewrite !string_app_cons, !prefix_cons, !prefix_nil. reflexivity.
Qed.

(** The piece before the first separator: it ends where the two bars
    stand when no two bars come earlier. *)
Lemma split_from_first (s cur t : string) :
  JS.includes (s +:+ "|") "||" = false ->
  JS.split_from "||" 0 cur (s +:+ "||" +:+ t)
  = (cur +:+ s) :: JS.split_from "||" 0 "" t.
Proof.
  revert cur. induction s as [|c s IH]; intros cur Hno.
  - rewrite string_app_nil_l, string_app_nil_r.
    change ("||" +:+ t) with (String "|" (String "|" t)).
    cbn [JS.split_from]. rewrite !prefix_cons, prefix_nil. reflexivity.
  - rewrite string_app_cons in Hno. apply includes_cons_false in Hno as [Hp Hno].
    rewrite string_app_cons.
    assert (Hp' : String.prefix "||" (String c (s +:+ "||" +:+ t)) = false).
    { rewrite prefix_cons in Hp |- *. rewrite <- prefix_bar_app. exact Hp. }
    cbn [JS.split_from]. rewrite Hp'.
    rewrite (IH _ Hno), string_app_assoc, string_app_cons, string_app_nil_l. reflexivity.
Qed.

(** A string without separator is one piece. *)
Lemma split_from_last (t cur : string) :
  JS.includes t "||" = false -> JS.split_from "||" 0 cur t = [cur +:+ t].
Proof.
  revert cur. induction t as [|c t IH]; intros cur Hno.
  - rewrite string_app_nil_r. reflexivity.
  - apply includes_cons_false in Hno as [Hp Hno].
    cbn [JS.split_from]. rewrite Hp, (IH _ Hno), string_app_assoc, string_app_cons, string_app_nil_l.
    reflexivity.
Qed.

(** A split always has a first piece. *)
Lemma split_from_not_nil (sep : string) (skip : nat) (cur s : string) :
  JS.split_from sep skip cur s <> [].
Proof.
  revert skip cur. induction s as [|c s IH]; intros skip cur; cbn [JS.split_from].
  - intros H. discriminate H.
  - destruct skip; [|apply IH].
    destruct (String.prefix sep (String c s)); [intros H; discriminate H | apply IH].
Qed.

Lemma decodePayload_joined (path tgs : string) :
  JS.includes (path +:+ "|") "||" = false ->
  JS.includes tgs "||" = false ->
  decodePayload (path +:+ "||" +:+ tgs) = (path, tgs).
Proof.
  intros Hpath Htags. unfold decodePayload, JS.split_limit, JS.split.
  rewrite (split_from_first path "" tgs Hpath), (split_from_last tgs "" Htags).
  reflexivity.
Qed.

(** The click handler on an identifier that does not start with post:. *)
Lemma handleButtonClick_unknown (interaction : Interaction) (env : Env) :
  JS.startsWith (default "" (data interaction ≫= custom_id)) "post:" = false ->
  handleButtonClick interaction env
  = ([], Returned (updateMessage {| content := Some "Unknown action.";
                                    embeds := Some [];
                                    components := Some [];
                                    flags := None |})).
Proof. intros Hp. unfold handleButtonClick. rewrite Hp. reflexivity. Qed.

(** ** The identifier of a button, there and back *)

Lemma or_empty_Some (t : string) : or_empty (Some t) = t.
Proof. destruct t; reflexivity. Qed.

Lemma customIdOf_fits (path tgs : string) :
  (String.length ("post:" +:+ path +:+ "||" +:+ tgs) <= 100)%nat ->
  customIdOf path tgs = "post:" +:+ path +:+ "||" +:+ tgs.
Proof.
  intros Hfit. unfold customIdOf, gifButton, mkGif. cbn [button_custom_id url tags].
  rewrite or_empty_Some. apply string_take_all, Hfit.
Qed.

(** The click handler on an identifier that starts with post:. *)
Lemma handleButtonClick_post (interaction : Interaction) (env : Env) (payload : string) :
  data interaction ≫= custom_id = Some ("post:" +:+ payload) ->
  handleButtonClick interaction env =
    ([EvWaitUntilPost
        ("https://discord.com/api/v10/webhooks/" +:+ DISCORD_APP_ID env
         +:+ "/" +:+ token interaction)
        {| content := None;
           embeds := Some [gifEmbed (mkGif (fst (decodePayload payload))
                                           (Some (snd (decodePayload payload))))];
           components := None;
           flags := None |}],
     Returned (updateMessage
                 {| content := Some ("Posted **" +:+ fst (decodePayload payload) +:+ "**");
                    embeds := Some [];
                    components := Some [];
                    flags := None |})).
Proof.
  intros Hid. unfold handleButtonClick. rewrite Hid.
  cbn [default from_option id]. unfold JS.startsWith.
  assert (Hp : String.prefix "post:" ("post:" +:+ payload) = true)
    by (apply prefix_app; eauto).
  rewrite Hp. cbn [negb]. rewrite (string_drop_app_length "post:" payload).
  destruct (decodePayload payload) as [gifFilename tgs]. reflexivity.
Qed.

(** C3, as the code has it.  Take a path and tags such that the
    identifier post:path||tags has at most 100 characters, no two bars
    in a row stand in the path followed by one bar (the path has no two
    bars and does not end with a bar), and none in the tags.  Then the
    identifier of the button starts with post:, what the click handler
    decodes from it is the path and the tags, the empty tags included,
    and the click posts the GIF of that path and those tags. *)
Theorem custom_id_round_trip (path tgs : string) :
  (String.length ("post:" +:+ path +:+ "||" +:+ tgs) <= 100)%nat ->
  JS.includes (path +:+ "|") "||" = false ->
  JS.includes tgs "||" = false ->
  roundTrips path tgs
  /\ forall (env : Env) (tok : string),
       handleButtonClick
         {| type := Some InteractionType.MESSAGE_COMPONENT;
            data := Some {| options := None;
                            custom_id := Some (customIdOf path tgs) |};
            token := tok |} env
       = ([EvWaitUntilPost
             ("https://discord.com/api/v10/webhooks/" +:+ DISCORD_APP_ID env
              +:+ "/" +:+ tok)
             {| content := None;
                embeds := Some [gifEmbed (mkGif path (Some tgs))];
                components := None;
                flags := None |}],
          Returned (updateMessage
                      {| content := Some ("Posted **" +:+ path +:+ "**");
                         embeds := Some [];
                         components := Some [];
                         flags := None |})).
Proof.
  intros Hfit Hpath Htags. unfold roundTrips.
  rewrite (customIdOf_fits path tgs Hfit).
  pose proof (decodePayload_joined path tgs Hpath Htags) as Hdec.
  split.
  - split; [apply prefix_app; eauto|].
    rewrite (string_drop_app_length "post:"). exact Hdec.
  - intros env tok.
    rewrite (handleButtonClick_post _ env (path +:+ "||" +:+ tgs)) by reflexivity.
    rewrite Hdec. reflexivity.
Qed.

Lemma custom_id_round_trip_witness :
  roundTrips "cat.gif" "" /\ roundTrips "a|b.gif" "|cat, funny|".
Proof.
  split.
  - apply (custom_id_round_trip "cat.gif" ""); [vm_compute; lia | reflexivity | reflexivity].
  - apply (custom_id_round_trip "a|b.gif" "|cat, funny|");
      [vm_compute; lia | reflexivity | reflexivity].
Defined.

(** Three ways to lose the path or the tags.  An identifier of more
    than 100 characters is cut, and the tags with it.  Two bars in the
    path are read as the separator: the path is cut there and its rest
    becomes the tags.  Of tags with two bars the click handler reads
    what stands before them. *)
Lemma custom_id_round_trip_counterexample :
  ~ roundTrips "0123456789012345678901234567890123456789.gif"
               "0123456789012345678901234567890123456789012345678, last"
  /\ ~ roundTrips "a||b" ""
  /\ ~ roundTrips "a.gif" "x||y".
Proof. repeat split; intros [_ H]; vm_compute in H; discriminate H. Qed.

Example custom_id_truncated :
  decodePayload
    (JS.drop (String.length "post:")
       (customIdOf "0123456789012345678901234567890123456789.gif"
                   "0123456789012345678901234567890123456789012345678, last"))
  = ("0123456789012345678901234567890123456789.gif",
     "0123456789012345678901234567890123456789012345678").
Proof. reflexivity. Qed.

Example custom_id_path_with_separator :
  decodePayload (JS.drop (String.length "post:") (customIdOf "a||b" "")) = ("a", "b").
Proof. reflexivity. Qed.

Example custom_id_tags_with_separator :
  decodePayload (JS.drop (String.length "post:") (customIdOf "a.gif" "x||y"))
  = ("a.gif", "x").
Proof. reflexivity. Qed.

(** ** The search filter *)

Lemma toLowerCase_app (s t : string) :
  JS.toLowerCase (s +:+ t) = JS.toLowerCase s +:+ JS.toLowerCase t.
Proof.
  induction s as [|c s IH]; [reflexivity|].
  rewrite string_app_cons. cbn [JS.toLowerCase]. rewrite IH. reflexivity.
Qed.

(** A cut of the lowered string is the lowering of a cut of the string. *)
Lemma toLowerCase_cut (s a b : string) :
  JS.toLowerCase s = a +:+ b ->
  exists s1 s2, s = s1 +:+ s2 /\ JS.toLowerCase s1 = a /\ JS.toLowerCase s2 = b.
Proof.
  revert s. induction a as [|c a IH]; intros s Hs.
  - exists "", s. rewrite string_app_nil_l in Hs. repeat split. exact Hs.
  - destruct s as [|d s]; [discriminate Hs|].
    rewrite string_app_cons in Hs. cbn [JS.toLowerCase] in Hs. injection Hs as Hc Hs.
    destruct (IH s Hs) as (s1 & s2 & -> & H1 & H2).
    exists (String d s1), s2. cbn [JS.toLowerCase]. rewrite Hc, H1.
    repeat split. exact H2.
Qed.

(** The test of the code is the containment of the specification. *)
Lemma includes_lower (hay needle : string) :
  JS.includes (JS.toLowerCase hay) (JS.toLowerCase needle) = true
  <-> containsIgnoringCase hay needle.
Proof.
  rewrite includes_spec. unfold containsIgnoringCase, sameIgnoringCase. split.
  - intros (pre' & post' & H).
    apply toLowerCase_cut in H as (pre & rest & -> & _ & H).
    apply toLowerCase_cut in H as (mid & post & -> & Hmid & _).
    exists pre, mid, post. split; [reflexivity | exact Hmid].
  - intros (pre & mid & post & -> & Hmid).
    exists (JS.toLowerCase pre), (JS.toLowerCase post).
    rewrite !toLowerCase_app, Hmid. reflexivity.
Qed.

Lemma gifMatches_spec (query : string) (g : Gif) :
  gifMatches (JS.toLowerCase query) g = true <-> matchesTerm query g.
Proof.
  unfold gifMatches, matchesTerm. rewrite orb_true_iff, includes_lower.
  destruct (tags g) as [t|].
  - rewrite includes_lower. split.
    + intros [H|H]; [left; exists t; split; [reflexivity | exact H] | right; exact H].
    + intros [(t' & Ht & H)|H]; [left; injection Ht as <-; exact H | right; exact H].
  - split.
    + intros [H|H]; [discriminate H | right; exact H].
    + intros [(t' & Ht & _)|H]; [discriminate Ht | right; exact H].
Qed.

Lemma searchMatches_elem (allGifs : list Gif) (query : string) (g : Gif) :
  g ∈ searchMatches allGifs query <-> g ∈ allGifs /\ matchesTerm query g.
Proof.
  unfold searchMatches. rewrite !list_elem_of_In, filter_In, gifMatches_spec.
  reflexivity.
Qed.

Lemma searchMatches_sublist (allGifs : list Gif) (query : string) :
  searchMatches allGifs query `sublist_of` allGifs.
Proof.
  unfold searchMatches. induction allGifs as [|g l IH]; simpl; [constructor|].
  destruct (gifMatches (JS.toLowerCase query) g); constructor; exact IH.
Qed.



(** A search never throws once the catalog is there. *)
Lemma handleSlashCommand_search_returns w interaction st allGifs :
  catalog w = HttpReply st (Some allGifs) -> ok st = true ->
  searchQuery interaction <> "" ->
  exists resp, handleSlashCommand w interaction = ([catalogRequest], Returned resp).
Proof.
  intros Hc Hok Hq.
  rewrite (handleSlashCommand_fetched w interaction st allGifs Hc Hok). cbv zeta.
  destruct (searchQuery interaction) as [|c q]; [contradiction|].
  cbn [nonEmpty negb].
  destruct (length (searchMatches allGifs (String c q)) =? 0)%nat;
    eexists; reflexivity.
Qed.

(** C10.  A catalog may hold GIFs without tags (missing, null or
    undefined).  A search on it returns a response and throws nothing,
    and a GIF without tags is matched by its url alone: the test of the
    filter on it is the test on the url, so it is among the matches
    when it is in the catalog and its url contains the term, letter
    case left aside. *)
Theorem missing_tags_matched_by_url (w : World) (interaction : Interaction)
    (st : nat) (allGifs : list Gif) :
  catalog w = HttpReply st (Some allGifs) ->
  ok st = true ->
  searchQuery interaction <> "" ->
  (exists resp, handleSlashCommand w interaction = ([catalogRequest], Returned resp))
  /\ forall g, tags g = None ->
       gifMatches (JS.toLowerCase (searchQuery interaction)) g
       = JS.includes (JS.toLowerCase (url g)) (JS.toLowerCase (searchQuery interaction))
       /\ (g ∈ searchMatches allGifs (searchQuery interaction)
           <-> g ∈ allGifs /\ containsIgnoringCase (url g) (searchQuery interaction)).
Proof.
  intros Hc Hok Hq.
  split; [apply (handleSlashCommand_search_returns w interaction st allGifs Hc Hok Hq)|].
  intros g Hg. split.
  - unfold gifMatches. rewrite Hg. reflexivity.
  - rewrite searchMatches_elem. unfold matchesTerm. rewrite Hg. split.
    + intros [Hin [(t & Ht & _)|H]]; [discriminate Ht | split; assumption].
    + intros [Hin H]. split; [exact Hin | right; exact H].
Qed.

Lemma missing_tags_matched_by_url_witness :
  (exists resp,
     handleSlashCommand
       (worldOf [mkGif "Cat.gif" None; mkGif "dog.gif" None] (fun _ => 0%N))
       (command (Some "cat"))
     = ([catalogRequest], Returned resp))
  /\ searchMatches [mkGif "Cat.gif" None; mkGif "dog.gif" None] "cat"
     = [mkGif "Cat.gif" None].
Proof.
  split; [|reflexivity].
  apply (missing_tags_matched_by_url
           (worldOf [mkGif "Cat.gif" None; mkGif "dog.gif" None] (fun _ => 0%N))
           (command (Some "cat")) 200
           [mkGif "Cat.gif" None; mkGif "dog.gif" None]).
  - reflexivity.
  - reflexivity.
  - discriminate.
Defined.

(** ** Hexadecimal text and the signature gate *)

Lemma ToUint8_range (v : option Z) : 0 <= JS.ToUint8 v < 256.
Proof. destruct v as [n|]; simpl; [apply Z.mod_pos_bound|]; lia. Qed.

Lemma hex_loop_spec (fuel i : nat) (hex : string) (bytes : list Z) :
  Forall isByte bytes ->
  length (hex_loop fuel i hex bytes) = length bytes
  /\ Forall isByte (hex_loop fuel i hex bytes).
Proof.
  revert i bytes. induction fuel as [|fuel IH]; intros i bytes Hb; cbn [hex_loop]; [auto|].
  destruct (i <? String.length hex)%nat; [|auto].
  destruct (IH (i + 2)%nat
              (<[(i / 2)%nat :=
                   JS.ToUint8 (JS.parseInt16 (JS.slice i (i + 2) hex))]> bytes))
    as [Hlen Hall].
  - apply Forall_insert; [exact Hb | apply ToUint8_range].
  - rewrite Hlen, length_insert. auto.
Qed.

(** The loop stops on its own test: more fuel changes nothing. *)
Lemma hex_loop_fuel (fuel extra i : nat) (hex : string) (bytes : list Z) :
  (String.length hex <= i + 2 * fuel)%nat ->
  hex_loop (fuel + extra) i hex bytes = hex_loop fuel i hex bytes.
Proof.
  revert i bytes. induction fuel as [|fuel IH]; intros i bytes Hfuel; cbn [hex_loop Nat.add].
  - destruct extra; cbn [hex_loop]; [reflexivity|].
    destruct (Nat.ltb_spec i (String.length hex)); [lia | reflexivity].
  - destruct (Nat.ltb_spec i (String.length hex)); [|reflexivity].
    apply IH. lia.
Qed.

(** [hexToUint8Array] throws on no text: it returns bytes, half as many
    as the text has characters, a character left over being dropped. *)
Lemma hexToUint8Array_total (hex : string) :
  length (hexToUint8Array hex) = (String.length hex / 2)%nat
  /\ Forall isByte (hexToUint8Array hex).
Proof.
  unfold hexToUint8Array.
  destruct (hex_loop_spec (String.length hex) 0 hex
              (replicate (String.length hex / 2) 0)) as [Hlen Hall].
  - apply Forall_replicate. unfold isByte. lia.
  - rewrite Hlen, length_replicate. auto.
Qed.

Example hexToUint8Array_well_formed : hexToUint8Array "0aFf10" = [10; 255; 16].
Proof. reflexivity. Qed.

Example hexToUint8Array_malformed :
  hexToUint8Array "zz" = [0]
  /\ hexToUint8Array "1g-1 a" = [1; 255; 10]
  /\ hexToUint8Array "abc" = [171]
  /\ hexToUint8Array "" = [].
Proof. repeat split; reflexivity. Qed.

(** C2, as the code has it.  Take a POST whose signature or whose
    configured public key is no well-formed hexadecimal text.  The
    decoding throws nothing ([hexToUint8Array_total]) and what happens
    next is up to the platform: when the import of the key throws, or
    the verification does, the handler throws that error to its caller,
    for nothing catches it; when the key is imported and the
    verification answers false, the handler answers 401 and does
    nothing else. *)
Theorem malformed_hex_verification (P : Platform) (w : World) (request : Request) (env : Env) :
  method request = "POST" ->
  wellFormedHex (default "" (X_Signature_Ed25519 request)) = false
  \/ wellFormedHex (DISCORD_PUBLIC_KEY env) = false ->
  match importKey P (hexToUint8Array (DISCORD_PUBLIC_KEY env)) with
  | Thrown e => fetch P w request env = ([], Thrown e)
  | Returned key =>
      match verify P key
              (hexToUint8Array (default "" (X_Signature_Ed25519 request)))
              (JS.utf8_encode (default "" (X_Signature_Timestamp request)
                               +:+ request_text request)) with
      | Thrown e => fetch P w request env = ([], Thrown e)
      | Returned false =>
          fetch P w request env = ([], Returned (plainResponse "Invalid signature" 401))
      | Returned true => True
      end
  end.
Proof.
  intros Hm _. rewrite (fetch_post P w request env Hm).
  unfold verification, verifyDiscordSignature.
  destruct (importKey P _) as [key|e]; [|reflexivity].
  rewrite bind_lift_returned.
  destruct (verify P key _ _) as [[|]|e]; [exact I | reflexivity | reflexivity].
Qed.

Lemma malformed_hex_verification_witness :
  fetch (samplePlatform (fun _ => Thrown SyntaxError)) (worldOf [] (fun _ => 0%N))
        (postRequest (Some "not hex!") "{}") (sampleEnv sampleKey)
  = ([], Returned (plainResponse "Invalid signature" 401)).
Proof.
  exact (malformed_hex_verification
           (samplePlatform (fun _ => Thrown SyntaxError)) (worldOf [] (fun _ => 0%N))
           (postRequest (Some "not hex!") "{}") (sampleEnv sampleKey)
           eq_refl (or_introl eq_refl)).
Defined.

(** A public key that lost its last character is no well-formed
    hexadecimal text; it decodes to 31 bytes, the import of the key
    throws, and so does the handler: no 401. *)
Lemma malformed_key_counterexample :
  wellFormedHex (JS.take 63 sampleKey) = false
  /\ length (hexToUint8Array (JS.take 63 sampleKey)) = 31%nat
  /\ fetch (samplePlatform (fun _ => Thrown SyntaxError)) (worldOf [] (fun _ => 0%N))
           (postRequest (Some sampleSignature) "{}") (sampleEnv (JS.take 63 sampleKey))
     = ([], Thrown DataError).
Proof. repeat split; reflexivity. Qed.

(** * More of the handler *)

(** ** The command without search term *)

Lemma floor_random_times_bitsFor (j n : nat) :
  (j < n)%nat -> (N.of_nat n <= 2 ^ 53)%N -> JS.floor_random_times (bitsFor j n) n = j.
Proof.
  intros Hj Hn. unfold JS.floor_random_times, bitsFor.
  set (B := (2 ^ 53)%N) in *. set (J := N.of_nat j). set (K := N.of_nat n) in *.
  assert (HJ : (J < K)%N) by (unfold J, K; lia).
  assert (HB : (0 < B)%N) by (unfold B; reflexivity).
  pose proof (N.div_mod (J * B + K - 1) K ltac:(lia)) as Hdm.
  pose proof (N.mod_lt (J * B + K - 1) K ltac:(lia)) as Hlt.
  set (r := ((J * B + K - 1) / K)%N) in *.
  set (m := ((J * B + K - 1) mod K)%N) in *.
  assert (Hlo : (J * B <= r * K)%N) by nia.
  assert (Hhi : (r * K < (J + 1) * B)%N) by nia.
  assert (Hr : (r < B)%N) by nia.
  rewrite (N.mod_small r B Hr).
  assert (Hq : (r * K / B = J)%N).
  { symmetry. apply (N.div_unique (r * K) B J (r * K - J * B)); nia. }
  rewrite Hq. unfold J. lia.
Qed.

(** The pick of the command without search term: the GIF at the index
    drawn. *)
Lemma handleSlashCommand_pick w interaction st allGifs :
  catalog w = HttpReply st (Some allGifs) -> ok st = true ->
  searchQuery interaction = "" ->
  allGifs <> [] ->
  exists g,
    allGifs !! JS.floor_random_times (random w 0) (length allGifs) = Some g
    /\ handleSlashCommand w interaction
       = ([catalogRequest], Returned (channelMessage (singleGifMessage g))).
Proof.
  intros Hc Hok Hq Hne.
  rewrite (handleSlashCommand_fetched w interaction st allGifs Hc Hok). cbv zeta.
  rewrite Hq. cbn [nonEmpty negb].
  assert (Hlen : (0 < length allGifs)%nat) by (destruct allGifs; [contradiction | simpl; lia]).
  pose proof (floor_random_times_lt (random w 0) (length allGifs) Hlen) as Hidx.
  destruct (lookup_lt_is_Some_2 allGifs _ Hidx) as [g Hg].
  exists g. rewrite Hg. split; reflexivity.
Qed.

(** X1.  A command without search term on a catalog that is not empty
    answers, after its one request, a channel message shown to all
    that holds one embed, the one of a GIF of the catalog; on a catalog
    of one GIF it is that GIF. *)
Theorem random_pick_reply (w : World) (interaction : Interaction)
    (st : nat) (allGifs : list Gif) :
  catalog w = HttpReply st (Some allGifs) ->
  ok st = true ->
  searchQuery interaction = "" ->
  allGifs <> [] ->
  exists g,
    g ∈ allGifs
    /\ (forall g0, allGifs = [g0] -> g = g0)
    /\ handleSlashCommand w interaction
       = ([catalogRequest], Returned (channelMessage (singleGifMessage g))).
Proof.
  intros Hc Hok Hq Hne.
  destruct (handleSlashCommand_pick w interaction st allGifs Hc Hok Hq Hne)
    as (g & Hg & Hrun).
  exists g. split; [|split].
  - apply list_elem_of_lookup. eauto.
  - intros g0 ->. destruct (JS.floor_random_times (random w 0) (length [g0])) as [|n];
      simpl in Hg; [congruence | discriminate Hg].
  - exact Hrun.
Qed.

Lemma random_pick_reply_witness :
  exists g,
    g ∈ cats 12
    /\ (forall g0, cats 12 = [g0] -> g = g0)
    /\ handleSlashCommand crowdedWorld (command (Some "   "))
       = ([catalogRequest], Returned (channelMessage (singleGifMessage g))).
Proof.
  apply (random_pick_reply crowdedWorld (command (Some "   ")) 200 (cats 12));
    [reflexivity | reflexivity | reflexivity | discriminate].
Defined.

(** X2.  Every GIF of the catalog can be the one picked: for each of
    them there are random bits with which the command without search
    term answers that GIF (the catalog having at most 2^53 GIFs, more
    than an array can hold). *)
Theorem random_pick_reaches_every_gif (allGifs : list Gif) (g : Gif)
    (interaction : Interaction) (st : nat) :
  g ∈ allGifs ->
  (N.of_nat (length allGifs) <= 2 ^ 53)%N ->
  ok st = true ->
  searchQuery interaction = "" ->
  exists bits,
    handleSlashCommand {| catalog := HttpReply st (Some allGifs);
                          random := fun _ => bits |} interaction
    = ([catalogRequest], Returned (channelMessage (singleGifMessage g))).
Proof.
  intros Hin Hlen Hok Hq.
  apply list_elem_of_lookup in Hin as [j Hj].
  pose proof (lookup_lt_Some _ _ _ Hj) as Hjlt.
  exists (bitsFor j (length allGifs)).
  rewrite (handleSlashCommand_fetched
             {| catalog := HttpReply st (Some allGifs);
                random := fun _ => bitsFor j (length allGifs) |}
             interaction st allGifs eq_refl Hok). cbv zeta.
  rewrite Hq. cbn [nonEmpty negb random].
  rewrite (floor_random_times_bitsFor j (length allGifs) Hjlt Hlen), Hj. reflexivity.
Qed.

Lemma random_pick_reaches_every_gif_witness :
  exists bits,
    handleSlashCommand {| catalog := HttpReply 200 (Some (cats 12));
                          random := fun _ => bits |} (command None)
    = ([catalogRequest],
       Returned (channelMessage (singleGifMessage (mkGif "c7.gif" (Some "cat"))))).
Proof.
  apply (random_pick_reaches_every_gif (cats 12) (mkGif "c7.gif" (Some "cat"))
           (command None) 200).
  - apply list_elem_of_In. vm_compute. tauto.
  - vm_compute. discriminate.
  - reflexivity.
  - reflexivity.
Defined.


(** ** The command with a search term *)





Lemma NoDup_submseteq {T} (l k : list T) : l ⊆+ k -> NoDup k -> NoDup l.
Proof.
  intros Hsub Hnd. apply submseteq_Permutation in Hsub as [rest Hperm].
  rewrite Hperm in Hnd. apply NoDup_app in Hnd as [Hl _]. exact Hl.
Qed.

(** X6.  The GIFs of a picker are GIFs of the catalog that have the
    term in their tags or their url, at most ten of them, and none
    comes twice when none comes twice in the catalog. *)
Theorem picker_shows_matching_gifs (w : World) (interaction : Interaction)
    (st : nat) (allGifs : list Gif) :
  catalog w = HttpReply st (Some allGifs) ->
  ok st = true ->
  searchQuery interaction <> "" ->
  searchMatches allGifs (searchQuery interaction) <> [] ->
  exists shown,
    handleSlashCommand w interaction
    = ([catalogRequest],
       Returned (channelMessage (buildGifPicker shown (searchQuery interaction))))
    /\ (1 <= length shown <= 10)%nat
    /\ (forall g, g ∈ shown -> g ∈ allGifs /\ matchesTerm (searchQuery interaction) g)
    /\ (NoDup allGifs -> NoDup shown).
Proof.
  intros Hc Hok Hq Hm.
  exists (shownGifs w (searchMatches allGifs (searchQuery interaction))).
  split; [apply (handleSlashCommand_search w interaction st allGifs Hc Hok Hq Hm)|].
  pose proof (shownGifs_submseteq w (searchMatches allGifs (searchQuery interaction)))
    as Hsub.
  split; [|split].
  - rewrite shownGifs_length.
    assert (0 < length (searchMatches allGifs (searchQuery interaction)))%nat
      by (destruct (searchMatches allGifs (searchQuery interaction));
          [contradiction | cbn [length]; lia]).
    lia.
  - intros g Hg. apply searchMatches_elem.
    eapply elem_of_submseteq; [exact Hg | exact Hsub].
  - intros Hnd. apply (NoDup_submseteq _ _ Hsub).
    apply (NoDup_submseteq _ allGifs); [|exact Hnd].
    apply sublist_submseteq, searchMatches_sublist.
Qed.

Lemma picker_shows_matching_gifs_witness :
  exists shown,
    handleSlashCommand crowdedWorld (command (Some "CAT"))
    = ([catalogRequest], Returned (channelMessage (buildGifPicker shown "CAT")))
    /\ (1 <= length shown <= 10)%nat
    /\ (forall g, g ∈ shown -> g ∈ cats 12 /\ matchesTerm "CAT" g)
    /\ (NoDup (cats 12) -> NoDup shown).
Proof.
  apply (picker_shows_matching_gifs crowdedWorld (command (Some "CAT")) 200 (cats 12));
    [reflexivity | reflexivity | discriminate | discriminate].
Defined.

(** ** The search term *)

Lemma allWhite_app (s t : string) : allWhite (s +:+ t) = allWhite s && allWhite t.
Proof.
  induction s as [|c s IH]; [reflexivity|].
  rewrite string_app_cons. cbn [allWhite]. rewrite IH. apply andb_assoc.
Qed.

Lemma trimStart_white (s : string) : allWhite s = true -> JS.trimStart s = "".
Proof.
  induction s as [|c s IH]; [reflexivity|]. cbn [allWhite JS.trimStart].
  intros [Hc Hs]%andb_true_iff. rewrite Hc. exact (IH Hs).
Qed.

Lemma trimStart_not_white (s : string) :
  allWhite s = false ->
  exists c r, JS.trimStart s = String c r /\ JS.is_white c = false.
Proof.
  induction s as [|c s IH]; [discriminate|]. cbn [allWhite JS.trimStart].
  destruct (JS.is_white c) eqn:Hc; [exact IH|]. intros _. eauto.
Qed.

Lemma trimStart_app_white (w s : string) :
  allWhite w = true -> JS.trimStart (w +:+ s) = JS.trimStart s.
Proof.
  induction w as [|c w IH]; [reflexivity|]. cbn [allWhite].
  intros [Hc Hw]%andb_true_iff. rewrite string_app_cons. cbn [JS.trimStart].
  rewrite Hc. exact (IH Hw).
Qed.

Lemma trimStart_app_not_white (s w : string) :
  allWhite s = false -> JS.trimStart (s +:+ w) = JS.trimStart s +:+ w.
Proof.
  induction s as [|c s IH]; [discriminate|]. cbn [allWhite].
  rewrite string_app_cons. cbn [JS.trimStart].
  destruct (JS.is_white c); [exact IH | reflexivity].
Qed.

Lemma trimEnd_cons (c : ascii) (r : string) :
  JS.is_white c = false -> JS.trimEnd (String c r) = String c (JS.trimEnd r).
Proof. intros Hc. cbn [JS.trimEnd]. rewrite Hc. destruct (JS.trimEnd r); reflexivity. Qed.

Lemma trimEnd_white (w : string) : allWhite w = true -> JS.trimEnd w = "".
Proof.
  induction w as [|c w IH]; [reflexivity|]. cbn [allWhite JS.trimEnd].
  intros [Hc Hw]%andb_true_iff. rewrite (IH Hw), Hc. reflexivity.
Qed.

Lemma trimEnd_app_white (s w : string) :
  allWhite w = true -> JS.trimEnd (s +:+ w) = JS.trimEnd s.
Proof.
  intros Hw. induction s as [|c s IH].
  - rewrite string_app_nil_l. exact (trimEnd_white w Hw).
  - rewrite string_app_cons. cbn [JS.trimEnd]. rewrite IH. reflexivity.
Qed.

(** The trimmed string is empty for white space only. *)
Lemma trim_empty_iff (s : string) : JS.trim s = "" <-> allWhite s = true.
Proof.
  unfold JS.trim. destruct (allWhite s) eqn:Hs.
  - rewrite (trimStart_white s Hs). split; reflexivity.
  - destruct (trimStart_not_white s Hs) as (c & r & -> & Hc).
    rewrite (trimEnd_cons c r Hc). split; discriminate.
Qed.

(** White space around a string does not change what it trims to. *)
Lemma trim_app_white (before s after : string) :
  allWhite before = true -> allWhite after = true ->
  JS.trim (before +:+ s +:+ after) = JS.trim s.
Proof.
  intros Hb Ha. unfold JS.trim. rewrite (trimStart_app_white before _ Hb).
  destruct (allWhite s) eqn:Hs.
  - rewrite (trimStart_white s Hs), trimStart_white; [reflexivity|].
    rewrite allWhite_app, Hs, Ha. reflexivity.
  - rewrite (trimStart_app_not_white s after Hs). apply trimEnd_app_white, Ha.
Qed.

Lemma searchQuery_searchValue (interaction : Interaction) :
  searchQuery interaction = JS.trim (default "" (searchValue interaction)).
Proof. reflexivity. Qed.

(** The command handler reads the search term of the interaction and
    nothing else of it. *)
Lemma handleSlashCommand_query (w : World) (i1 i2 : Interaction) :
  searchQuery i1 = searchQuery i2 -> handleSlashCommand w i1 = handleSlashCommand w i2.
Proof. intros Hq. unfold handleSlashCommand. rewrite Hq. reflexivity. Qed.

(** X7.  A command has no search term exactly when it has no option
    named search, or that option has no value, or its value is white
    space only: the three are handled alike. *)
Theorem blank_search_iff (interaction : Interaction) :
  searchQuery interaction = ""
  <-> match searchValue interaction with
      | Some v => allWhite v = true
      | None => True
      end.
Proof.
  rewrite searchQuery_searchValue.
  destruct (searchValue interaction) as [v|]; cbn [default from_option id].
  - apply trim_empty_iff.
  - split; [intros _; exact I | reflexivity].
Qed.

(** X8.  White space before and after the value of the search option
    changes nothing: the command handler does with it what it does with
    the bare value. *)
Theorem search_ignores_surrounding_white_space (w : World) (i1 i2 : Interaction)
    (before v after : string) :
  allWhite before = true ->
  allWhite after = true ->
  searchValue i1 = Some (before +:+ v +:+ after) ->
  searchValue i2 = Some v ->
  handleSlashCommand w i1 = handleSlashCommand w i2.
Proof.
  intros Hb Ha H1 H2. apply handleSlashCommand_query.
  rewrite !searchQuery_searchValue, H1, H2. cbn [default from_option id].
  apply trim_app_white; assumption.
Qed.

Lemma search_ignores_surrounding_white_space_witness :
  handleSlashCommand crowdedWorld (command (Some "  cat "))
  = handleSlashCommand crowdedWorld (command (Some "cat")).
Proof.
  apply (search_ignores_surrounding_white_space crowdedWorld
           (command (Some "  cat ")) (command (Some "cat")) "  " "cat" " ");
    reflexivity.
Defined.

(** ** More of the shuffle *)

(** X9.  [shuffled] gives back the elements of its argument, each as
    often as it came, in an array of the same length, and every swap
    of its loop reads and writes inside the array. *)
Theorem shuffled_keeps_elements {T} (rnd : nat -> N) (arr : list T) :
  shuffled rnd arr ≡ₚ arr
  /\ length (shuffled rnd arr) = length arr
  /\ swaps_in_range rnd 0 (length arr - 1) arr.
Proof.
  assert (Hperm : shuffled rnd arr ≡ₚ arr) by apply shuffle_loop_Permutation.
  split; [exact Hperm|]. split; [apply Permutation_length, Hperm|].
  apply shuffled_in_range.
Qed.

(** The loop reads the random bits of its own calls only. *)
Lemma shuffle_loop_ext {T} (rnd1 rnd2 : nat -> N) (i k : nat) (a : list T) :
  (forall m, (k <= m)%nat -> rnd1 m = rnd2 m) ->
  shuffle_loop rnd1 k i a = shuffle_loop rnd2 k i a.
Proof.
  revert k a. induction i as [|i IH]; intros k a Hext; cbn [shuffle_loop]; [reflexivity|].
  rewrite (Hext k) by lia. apply IH. intros m Hm. apply Hext. lia.
Qed.

Lemma swap_lookup {T} (a : list T) (i j : nat) (x y : T) :
  a !! i = Some x -> a !! j = Some y -> swap a i j !! i = Some y.
Proof.
  intros Hi Hj. unfold swap. rewrite Hi, Hj.
  pose proof (lookup_lt_Some _ _ _ Hi) as Hlt.
  destruct (decide (j = i)) as [->|Hne].
  - rewrite list_lookup_insert_eq by (rewrite length_insert; exact Hlt). congruence.
  - rewrite list_lookup_insert_ne by exact Hne.
    apply list_lookup_insert_eq, Hlt.
Qed.

Lemma swap_drop {T} (a : list T) (i j n : nat) :
  (i < n)%nat -> (j < n)%nat -> drop n (swap a i j) = drop n a.
Proof.
  intros Hi Hj. unfold swap.
  destruct (a !! i) as [x|]; [|reflexivity].
  destruct (a !! j) as [y|]; [|reflexivity].
  rewrite drop_insert_lt by exact Hj. apply drop_insert_lt, Hi.
Qed.

(** Two orders of the same elements that agree from [m] on hold the
    same elements before [m]. *)
Lemma Permutation_same_tail {T} (a target : list T) (m : nat) :
  a ≡ₚ target -> drop m a = drop m target -> take m a ≡ₚ take m target.
Proof.
  intros Hperm Hdrop.
  rewrite <- (take_drop m a), <- (take_drop m target), Hdrop in Hperm.
  exact (Permutation_app_inv_r _ _ _ Hperm).
Qed.

Lemma shuffle_loop_reaches {T} (i k : nat) (a target : list T) :
  a ≡ₚ target ->
  drop (S i) a = drop (S i) target ->
  (i <= length a - 1)%nat ->
  (N.of_nat (length a) <= 2 ^ 53)%N ->
  exists rnd, shuffle_loop rnd k i a = target.
Proof.
  revert k a. induction i as [|i IH]; intros k a Hperm Htail Hi Hlen.
  - exists (fun _ => 0%N). cbn [shuffle_loop].
    pose proof (Permutation_same_tail a target 1 Hperm Htail) as Hhead.
    rewrite <- (take_drop 1 a), <- (take_drop 1 target), Htail. f_equal.
    destruct a as [|x a]; destruct target as [|y target]; simpl in Hhead |- *.
    + reflexivity.
    + apply Permutation_nil_l in Hhead. discriminate Hhead.
    + apply Permutation_nil_r in Hhead. discriminate Hhead.
    + apply Permutation_singleton_inj in Hhead. rewrite Hhead. reflexivity.
  - pose proof (Permutation_length Hperm) as Hlens.
    destruct (lookup_lt_is_Some_2 target (S i) ltac:(lia)) as [y Hy].
    destruct (lookup_lt_is_Some_2 a (S i) ltac:(lia)) as [x Hx].
    pose proof (Permutation_same_tail a target (S (S i)) Hperm Htail) as Hhead.
    assert (Hin : y ∈ take (S (S i)) a).
    { rewrite Hhead. apply list_elem_of_lookup. exists (S i).
      rewrite lookup_take_lt by lia. exact Hy. }
    apply list_elem_of_lookup in Hin as [j Hj].
    apply lookup_take_Some in Hj as [Hj Hjlt].
    assert (Htail' : drop (S i) (swap a (S i) j) = drop (S i) target).
    { rewrite (drop_S _ y (S i) (swap_lookup a (S i) j x y Hx Hj)).
      rewrite (drop_S target y (S i) Hy).
      rewrite swap_drop by lia. rewrite Htail. reflexivity. }
    destruct (IH (S k) (swap a (S i) j)) as [rnd' Hrnd'].
    + rewrite swap_Permutation. exact Hperm.
    + exact Htail'.
    + rewrite swap_length. lia.
    + rewrite swap_length. exact Hlen.
    + exists (fun m => if (m =? k)%nat then bitsFor j (S i + 1) else rnd' m).
      cbn [shuffle_loop]. rewrite Nat.eqb_refl.
      rewrite floor_random_times_bitsFor by lia.
      rewrite <- Hrnd'. apply shuffle_loop_ext.
      intros m Hm. destruct (Nat.eqb_spec m k); [lia | reflexivity].
Qed.

(** X10.  Every order of the elements can come out of [shuffled]: for
    each one there are random bits that produce it (the array having
    at most 2^53 elements, more than an array can hold). *)
Theorem shuffled_reaches_every_order {T} (arr target : list T) :
  arr ≡ₚ target ->
  (N.of_nat (length arr) <= 2 ^ 53)%N ->
  exists rnd, shuffled rnd arr = target.
Proof.
  intros Hperm Hlen. unfold shuffled.
  apply shuffle_loop_reaches; [exact Hperm | | lia | exact Hlen].
  pose proof (Permutation_length Hperm) as Hlens.
  destruct arr as [|x arr].
  - apply Permutation_nil_l in Hperm. subst target. reflexivity.
  - cbn [length] in *. replace (S (S (length arr) - 1)) with (S (length arr)) by lia.
    rewrite !drop_ge by (cbn [length]; lia). reflexivity.
Qed.

Lemma shuffled_reaches_every_order_witness :
  exists rnd, shuffled rnd [1; 2; 3; 4]%nat = [3; 1; 4; 2]%nat.
Proof.
  apply (shuffled_reaches_every_order [1; 2; 3; 4]%nat [3; 1; 4; 2]%nat).
  - apply (Permutation_trans (l' := [1; 3; 2; 4]%nat)).
    + apply perm_skip, perm_swap.
    + apply (Permutation_trans (l' := [3; 1; 2; 4]%nat)); [apply perm_swap|].
      apply perm_skip, perm_skip, perm_swap.
  - vm_compute. discriminate.
Defined.

(** ** Buttons and clicks *)

(** X11.  Whatever the GIF, its button stays inside the limits of the
    platform: a label of at most 80 characters that starts with Post:
    and a space, an identifier of at most 100 characters that starts
    with post:. *)
Theorem button_bounds (gif : Gif) :
  (String.length (label (gifButton gif)) <= 80)%nat
  /\ (String.length (button_custom_id (gifButton gif)) <= 100)%nat
  /\ JS.startsWith (label (gifButton gif)) "Post: " = true
  /\ JS.startsWith (button_custom_id (gifButton gif)) "post:" = true.
Proof.
  unfold gifButton. cbn [label button_custom_id].
  split; [rewrite string_take_length; lia|].
  split; [rewrite string_take_length; lia|].
  split; apply prefix_app.
  - exists (JS.take 74 (url gif)). reflexivity.
  - exists (JS.take 95 (url gif +:+ "||" +:+ or_empty (tags gif))). reflexivity.
Qed.

(** The first piece of a split: what stands before the first two bars,
    or the whole string when there are none. *)
Lemma split_from_head (s cur : string) :
  exists pre,
    (s = pre /\ JS.split_from "||" 0 cur s = [cur +:+ pre])
    \/ exists rest,
         s = pre +:+ "||" +:+ rest
         /\ JS.split_from "||" 0 cur s = (cur +:+ pre) :: JS.split_from "||" 0 "" rest.
Proof.
  revert cur. induction s as [|c s IH]; intros cur.
  - exists "". left. rewrite string_app_nil_r. split; reflexivity.
  - destruct (String.prefix "||" (String c s)) eqn:Hp.
    + exists "". right. apply prefix_app in Hp as [rest Hrest].
      exists rest. rewrite string_app_nil_r, string_app_nil_l. split; [exact Hrest|].
      rewrite Hrest. change ("||" +:+ rest) with (String "|" (String "|" rest)).
      cbn [JS.split_from]. rewrite !prefix_cons, prefix_nil. reflexivity.
    + destruct (IH (cur +:+ String c "")) as [pre [[Hs Hsplit]|(rest & Hs & Hsplit)]].
      * exists (String c pre). left. split; [rewrite Hs; reflexivity|].
        cbn [JS.split_from]. rewrite Hp, Hsplit, string_app_assoc. reflexivity.
      * exists (String c pre). right. exists rest.
        split; [rewrite Hs at 1; reflexivity|].
        cbn [JS.split_from]. rewrite Hp, Hsplit, string_app_assoc. reflexivity.
Qed.

(** X12.  What the click handler decodes is read off the payload in
    order: the payload is the path alone, the tags then being empty,
    or the path, two bars and the tags, or these followed by two bars
    and more, which is dropped. *)
Theorem decodePayload_reads_in_order (payload : string) :
  (payload = fst (decodePayload payload) /\ snd (decodePayload payload) = "")
  \/ exists rest,
       payload = fst (decodePayload payload) +:+ "||" +:+ rest
       /\ (rest = snd (decodePayload payload)
           \/ exists more, rest = snd (decodePayload payload) +:+ "||" +:+ more).
Proof.
  unfold decodePayload, JS.split_limit, JS.split.
  destruct (split_from_head payload "") as [path [[Hs Hsplit]|(rest & Hs & Hsplit)]];
    rewrite Hsplit, string_app_nil_l.
  - left. split; [exact Hs | reflexivity].
  - right. exists rest.
    destruct (split_from_head rest "") as [tgs [[Hr Hsplit']|(more & Hr & Hsplit')]];
      rewrite Hsplit', string_app_nil_l; cbn.
    + split; [exact Hs | left; exact Hr].
    + split; [exact Hs | right; exists more; exact Hr].
Qed.

(** What the click handler can do. *)
Lemma handleButtonClick_cases (interaction : Interaction) (env : Env) :
  exists text,
    (handleButtonClick interaction env
     = ([], Returned (updateMessage {| content := Some text;
                                       embeds := Some [];
                                       components := Some [];
                                       flags := None |})))
    \/ exists g,
         handleButtonClick interaction env
         = ([EvWaitUntilPost
               ("https://discord.com/api/v10/webhooks/" +:+ DISCORD_APP_ID env
                +:+ "/" +:+ token interaction)
               (singleGifMessage g)],
            Returned (updateMessage {| content := Some text;
                                       embeds := Some [];
                                       components := Some [];
                                       flags := None |})).
Proof.
  destruct (JS.startsWith (default "" (data interaction ≫= custom_id)) "post:") eqn:Hp.
  - unfold JS.startsWith in Hp. apply prefix_app in Hp as [payload Hid].
    assert (Hsome : data interaction ≫= custom_id = Some ("post:" +:+ payload)).
    { destruct (data interaction ≫= custom_id) as [cid|]; cbn in Hid.
      - rewrite Hid. reflexivity.
      - discriminate Hid. }
    eexists. right. eexists.
    exact (handleButtonClick_post interaction env payload Hsome).
  - eexists. left. exact (handleButtonClick_unknown interaction env Hp).
Qed.

(** X13.  The click handler never throws and never asks the catalog.
    It answers an edit of the message with a text, no embed and no
    component, and either does nothing else (the unknown action) or
    sends one follow-up, to the webhook of the application and the
    token of the interaction: the message of one GIF, shown to all. *)
Theorem click_handler_invariants (interaction : Interaction) (env : Env) :
  exists text,
    outcome (handleButtonClick interaction env)
    = Returned (updateMessage {| content := Some text;
                                 embeds := Some [];
                                 components := Some [];
                                 flags := None |})
    /\ (effects (handleButtonClick interaction env) = []
        \/ exists g,
             effects (handleButtonClick interaction env)
             = [EvWaitUntilPost
                  ("https://discord.com/api/v10/webhooks/" +:+ DISCORD_APP_ID env
                   +:+ "/" +:+ token interaction)
                  (singleGifMessage g)]).
Proof.
  destruct (handleButtonClick_cases interaction env) as [text [Hrun|[g Hrun]]];
    exists text; rewrite Hrun; (split; [reflexivity|]).
  - left. reflexivity.
  - right. exists g. reflexivity.
Qed.

(** X14.  A click on a button that the picker built is never an unknown
    action: whatever the GIF, the click on its button is answered
    Posted and a name, and the follow-up is sent. *)
Theorem picker_button_is_accepted (gif : Gif) (env : Env) (tok : string) :
  exists path tgs,
    handleButtonClick
      {| type := Some InteractionType.MESSAGE_COMPONENT;
         data := Some {| options := None;
                         custom_id := Some (button_custom_id (gifButton gif)) |};
         token := tok |} env
    = ([EvWaitUntilPost
          ("https://discord.com/api/v10/webhooks/" +:+ DISCORD_APP_ID env
           +:+ "/" +:+ tok)
          (singleGifMessage (mkGif path (Some tgs)))],
       Returned (updateMessage
                   {| content := Some ("Posted **" +:+ path +:+ "**");
                      embeds := Some [];
                      components := Some [];
                      flags := None |})).
Proof.
  set (payload := JS.take 95 (url gif +:+ "||" +:+ or_empty (tags gif))).
  exists (fst (decodePayload payload)), (snd (decodePayload payload)).
  exact (handleButtonClick_post
           {| type := Some InteractionType.MESSAGE_COMPONENT;
              data := Some {| options := None;
                              custom_id := Some (button_custom_id (gifButton gif)) |};
              token := tok |} env payload eq_refl).
Qed.

(** ** More of the rows of buttons *)

Lemma actionRows_loop_lookup (gifs : list Gif) (fuel i k : nat) :
  (length gifs <= i + 2 * fuel)%nat ->
  actionRows_loop fuel i gifs !! k
  = if (i + 2 * k <? length gifs)%nat then Some (rowAt gifs (i + 2 * k)) else None.
Proof.
  revert i k. induction fuel as [|fuel IH]; intros i k Hfuel; cbn [actionRows_loop].
  - destruct (Nat.ltb_spec (i + 2 * k) (length gifs)); [lia | reflexivity].
  - destruct (Nat.ltb_spec i (length gifs)) as [Hi|Hi].
    + destruct k as [|k].
      * replace (i + 2 * 0)%nat with i by lia. cbn [lookup list_lookup].
        destruct (Nat.ltb_spec i (length gifs)); [|lia].
        unfold rowAt, array_slice. replace (i + 2 - i)%nat with 2%nat by lia. reflexivity.
      * cbn [lookup list_lookup]. rewrite IH by lia.
        replace (i + 2 + 2 * k)%nat with (i + 2 * S k)%nat by lia. reflexivity.
    + destruct (Nat.ltb_spec (i + 2 * k) (length gifs)); [lia | reflexivity].
Qed.

(** X15.  The rows of a picker, whatever the number of GIFs: row [k]
    holds the buttons of the GIFs [2 * k] and [2 * k + 1], in this
    order, the last row one button only when the number is odd, and
    there is no row past the GIFs. *)
Theorem actionRows_lookup (gifs : list Gif) (k : nat) :
  actionRows gifs !! k
  = if (2 * k <? length gifs)%nat
    then Some {| row_type := 1;
                 row_components := map gifButton (take 2 (drop (2 * k) gifs)) |}
    else None.
Proof.
  unfold actionRows. rewrite actionRows_loop_lookup by lia. reflexivity.
Qed.

(** ** More of the hexadecimal text *)

Lemma hex_loop_lookup (hex : string) (fuel m k : nat) (bytes : list Z) :
  (String.length hex <= 2 * m + 2 * fuel)%nat ->
  hex_loop fuel (2 * m) hex bytes !! k
  = if (m <=? k)%nat && (k <? length bytes)%nat && (2 * k <? String.length hex)%nat
    then Some (byteAt hex k)
    else bytes !! k.
Proof.
  revert m bytes. induction fuel as [|fuel IH]; intros m bytes Hfuel; cbn [hex_loop].
  - destruct (Nat.leb_spec m k); [|reflexivity].
    destruct (Nat.ltb_spec (2 * k) (String.length hex)); [lia|].
    rewrite andb_false_r. reflexivity.
  - destruct (Nat.ltb_spec (2 * m) (String.length hex)) as [Hm|Hm].
    + replace (2 * m + 2)%nat with (2 * S m)%nat by lia.
      rewrite IH by lia. rewrite length_insert.
      replace (2 * m / 2)%nat with m by (rewrite Nat.mul_comm, Nat.div_mul; lia).
      destruct (Nat.leb_spec (S m) k) as [Hk|Hk].
      * destruct (Nat.leb_spec m k); [|lia].
        rewrite list_lookup_insert_ne by lia. reflexivity.
      * cbn [andb]. destruct (Nat.leb_spec m k) as [Hmk|Hmk].
        -- assert (k = m) as -> by lia.
           destruct (Nat.ltb_spec m (length bytes)) as [Hb|Hb].
           ++ destruct (Nat.ltb_spec (2 * m) (String.length hex)); [|lia].
              cbn [andb]. rewrite list_lookup_insert_eq by exact Hb.
              unfold byteAt. replace (2 * S m)%nat with (2 * m + 2)%nat by lia.
              reflexivity.
           ++ cbn [andb]. rewrite list_insert_ge by lia. reflexivity.
        -- cbn [andb]. rewrite list_lookup_insert_ne by lia. reflexivity.
    + destruct (Nat.leb_spec m k); [|reflexivity].
      destruct (Nat.ltb_spec (2 * k) (String.length hex)); [lia|].
      rewrite andb_false_r. reflexivity.
Qed.

Lemma hexToUint8Array_lookup_general (hex : string) (k : nat) :
  hexToUint8Array hex !! k
  = if (k <? String.length hex / 2)%nat then Some (byteAt hex k) else None.
Proof.
  unfold hexToUint8Array.
  rewrite (hex_loop_lookup hex (String.length hex) 0 k) by lia.
  rewrite length_replicate. cbn [Nat.leb andb].
  pose proof (Nat.div_mod_eq (String.length hex) 2) as Hdiv.
  pose proof (Nat.mod_upper_bound (String.length hex) 2 ltac:(lia)) as Hmod.
  destruct (Nat.ltb_spec k (String.length hex / 2)) as [Hk|Hk].
  - destruct (Nat.ltb_spec (2 * k) (String.length hex)); [reflexivity | lia].
  - cbn [andb]. apply lookup_replicate_None. lia.
Qed.

(** X16.  Byte [k] of [hexToUint8Array hex] is what [parseInt] reads in
    the two characters at [2 * k] and [2 * k + 1] (NaN giving 0, a
    negative number wrapping), for every [k] below half the length of
    the text, and there is no byte past that: a last odd character is
    read and dropped. *)
Theorem hexToUint8Array_lookup (hex : string) (k : nat) :
  ((k < String.length hex / 2)%nat ->
   hexToUint8Array hex !! k
   = Some (JS.ToUint8 (JS.parseInt16 (JS.slice (2 * k) (2 * k + 2) hex))))
  /\ ((String.length hex / 2 <= k)%nat -> hexToUint8Array hex !! k = None).
Proof.
  rewrite hexToUint8Array_lookup_general.
  destruct (Nat.ltb_spec k (String.length hex / 2)); split; intros; try lia; reflexivity.
Qed.

Lemma hexToUint8Array_lookup_witness :
  hexToUint8Array "0aZZ-1f" !! 2%nat = Some 255
  /\ hexToUint8Array "0aZZ-1f" !! 3%nat = None.
Proof.
  split.
  - apply (proj1 (hexToUint8Array_lookup "0aZZ-1f" 2)). vm_compute. lia.
  - apply (proj2 (hexToUint8Array_lookup "0aZZ-1f" 3)). vm_compute. lia.
Defined.

(** A test that holds for the first [n] numbers holds below [n]. *)
Lemma below_forall (P : Z -> bool) (n : nat) :
  forallb (fun k => P (Z.of_nat k)) (seq 0 n) = true ->
  forall z, 0 <= z < Z.of_nat n -> P z = true.
Proof.
  intros Hall z Hz. rewrite forallb_forall in Hall.
  rewrite <- (Z2Nat.id z) by lia. apply Hall, in_seq. lia.
Qed.

Lemma parse_hexPair (b : Z) : isByte b -> JS.ToUint8 (JS.parseInt16 (hexPair b)) = b.
Proof.
  intros Hb. apply Z.eqb_eq.
  apply (below_forall (fun z => JS.ToUint8 (JS.parseInt16 (hexPair z)) =? z) 256);
    [vm_compute; reflexivity | exact Hb].
Qed.

Lemma hexChar_isHexDigit (d : Z) : 0 <= d < 16 -> isHexDigit (hexChar d) = true.
Proof.
  apply (below_forall (fun z => isHexDigit (hexChar z)) 16). vm_compute. reflexivity.
Qed.

Lemma hexOfBytes_cons (b : Z) (rest : list Z) :
  hexOfBytes (b :: rest)
  = String (hexChar (b / 16)) (String (hexChar (b mod 16)) (hexOfBytes rest)).
Proof. reflexivity. Qed.

Lemma length_hexOfBytes (bytes : list Z) :
  String.length (hexOfBytes bytes) = (2 * length bytes)%nat.
Proof.
  induction bytes as [|b rest IH]; [reflexivity|].
  rewrite hexOfBytes_cons. cbn [String.length length]. rewrite IH. lia.
Qed.

Lemma slice_hexOfBytes (bytes : list Z) (k : nat) (b : Z) :
  bytes !! k = Some b -> JS.slice (2 * k) (2 * k + 2) (hexOfBytes bytes) = hexPair b.
Proof.
  unfold JS.slice. replace (2 * k + 2 - 2 * k)%nat with 2%nat by lia.
  revert k. induction bytes as [|b0 rest IH]; intros k Hk; [discriminate Hk|].
  rewrite hexOfBytes_cons. destruct k as [|k].
  - injection Hk as ->. reflexivity.
  - replace (2 * S k)%nat with (S (S (2 * k))) by lia. cbn [JS.drop].
    apply IH. exact Hk.
Qed.

Lemma hexOfBytes_wellFormed (bytes : list Z) :
  Forall isByte bytes ->
  Nat.even (String.length (hexOfBytes bytes)) = true
  /\ forallb isHexDigit (list_ascii_of_string (hexOfBytes bytes)) = true.
Proof.
  induction 1 as [|b rest Hb _ [IHeven IHall]]; [split; reflexivity|].
  rewrite hexOfBytes_cons. cbn [String.length list_ascii_of_string forallb].
  unfold isByte in Hb.
  rewrite (hexChar_isHexDigit (b / 16)) by (split; [apply Z.div_pos | apply Z.div_lt_upper_bound]; lia).
  rewrite (hexChar_isHexDigit (b mod 16)) by (apply Z.mod_pos_bound; lia).
  split; [exact IHeven | exact IHall].
Qed.

Lemma hexToUint8Array_of_bytes (bytes : list Z) :
  Forall isByte bytes -> hexToUint8Array (hexOfBytes bytes) = bytes.
Proof.
  intros Hbytes. apply list_eq. intros k.
  rewrite hexToUint8Array_lookup_general, length_hexOfBytes.
  replace (2 * length bytes / 2)%nat with (length bytes)
    by (rewrite Nat.mul_comm, Nat.div_mul; lia).
  destruct (Nat.ltb_spec k (length bytes)) as [Hk|Hk].
  - destruct (lookup_lt_is_Some_2 bytes k Hk) as [b Hb].
    unfold byteAt. rewrite (slice_hexOfBytes bytes k b Hb), Hb. f_equal.
    apply parse_hexPair. exact (proj1 (Forall_lookup isByte bytes) Hbytes k b Hb).
  - symmetry. apply lookup_ge_None. lia.
Qed.

(** X17.  Bytes written as hexadecimal text, two digits each, are read
    back by [hexToUint8Array] as they were; the text is well formed. *)
Theorem hex_round_trip (bytes : list Z) :
  Forall isByte bytes ->
  wellFormedHex (hexOfBytes bytes) = true
  /\ hexToUint8Array (hexOfBytes bytes) = bytes.
Proof.
  intros Hbytes. split.
  - destruct (hexOfBytes_wellFormed bytes Hbytes) as [Heven Hall].
    unfold wellFormedHex. rewrite Heven, Hall. reflexivity.
  - exact (hexToUint8Array_of_bytes bytes Hbytes).
Qed.

Lemma hex_round_trip_witness :
  wellFormedHex (hexOfBytes [0; 10; 255; 127]) = true
  /\ hexToUint8Array (hexOfBytes [0; 10; 255; 127]) = [0; 10; 255; 127].
Proof.
  apply (hex_round_trip [0; 10; 255; 127]).
  repeat constructor; unfold isByte; lia.
Defined.

(** ** More of the main handler *)

Lemma fetch_cases (P : Platform) (w : World) (request : Request) (env : Env) :
  (method request <> "POST"
   /\ fetch P w request env = ([], Returned (plainResponse "Not found" 404)))
  \/ (method request = "POST" /\
      ((exists e, outcome (verification P request env) = Thrown e
                  /\ fetch P w request env = ([], Thrown e))
       \/ (outcome (verification P request env) = Returned false
           /\ fetch P w request env
              = ([], Returned (plainResponse "Invalid signature" 401)))
       \/ (outcome (verification P request env) = Returned true /\
           ((exists e, JSON_parse P (request_text request) = Thrown e
                       /\ fetch P w request env
                          = ([EvJsonParse (request_text request)], Thrown e))
            \/ (exists interaction,
                  JSON_parse P (request_text request) = Returned interaction
                  /\ fetch P w request env
                     = (EvJsonParse (request_text request)
                          :: effects (dispatch w interaction env),
                        outcome (dispatch w interaction env))))))).
Proof.
  destruct (String.eqb_spec (method request) "POST") as [Hm|Hm].
  - right. split; [exact Hm|].
    rewrite (fetch_post P w request env Hm).
    destruct (outcome (verification P request env)) as [[|]|e] eqn:Hv;
      rewrite (verification_outcome _ _ _ _ Hv).
    + right. right. split; [reflexivity|].
      change (@pair (list effect) (result bool) [] (Returned true)) with (ret true).
      rewrite bind_ret. cbn [negb]. rewrite bind_perform.
      destruct (JSON_parse P (request_text request)) as [interaction|e] eqn:Hp.
      * right. exists interaction. split; [reflexivity|].
        rewrite bind_lift_returned. reflexivity.
      * left. exists e. split; reflexivity.
    + right. left. split; reflexivity.
    + left. exists e. split; reflexivity.
  - left. split; [exact Hm|]. unfold fetch.
    destruct (String.eqb_spec (method request) "POST"); [contradiction | reflexivity].
Qed.

Lemma dispatch_cases (w : World) (interaction : Interaction) (env : Env) :
  (type interaction = Some InteractionType.PING
   /\ dispatch w interaction env = ret handlePing)
  \/ (type interaction = Some InteractionType.APPLICATION_COMMAND
      /\ dispatch w interaction env = handleSlashCommand w interaction)
  \/ (type interaction = Some InteractionType.MESSAGE_COMPONENT
      /\ dispatch w interaction env = handleButtonClick interaction env)
  \/ (unknownType interaction
      /\ dispatch w interaction env
         = ret (plainResponse "Unknown interaction type" 400)).
Proof.
  unfold dispatch, unknownType.
  destruct (type interaction) as [t|].
  - unfold InteractionType.PING, InteractionType.APPLICATION_COMMAND,
      InteractionType.MESSAGE_COMPONENT.
    destruct (Z.eqb_spec t 1) as [->|H1]; [left; split; reflexivity|].
    destruct (Z.eqb_spec t 2) as [->|H2]; [right; left; split; reflexivity|].
    destruct (Z.eqb_spec t 3) as [->|H3]; [right; right; left; split; reflexivity|].
    right; right; right. split; [|reflexivity]. repeat split; congruence.
  - right; right; right. split; [|reflexivity]. repeat split; discriminate.
Qed.


(** What the switch does besides answering: nothing, or the request to
    the catalog, or one follow-up. *)
Lemma dispatch_effects (w : World) (interaction : Interaction) (env : Env) :
  effects (dispatch w interaction env) = []
  \/ effects (dispatch w interaction env) = [catalogRequest]
  \/ exists target g,
       effects (dispatch w interaction env)
       = [EvWaitUntilPost target (singleGifMessage g)].
Proof.
  destruct (dispatch_cases w interaction env)
    as [[_ Hd]|[[_ Hd]|[[_ Hd]|[_ Hd]]]]; rewrite Hd.
  - left. reflexivity.
  - destruct (handleSlashCommand_cases w interaction) as (r & Hr & _).
    rewrite Hr. right. left. reflexivity.
  - destruct (handleButtonClick_cases interaction env) as [text [Hr|[g Hr]]]; rewrite Hr.
    + left. reflexivity.
    + right. right. eexists. exists g. reflexivity.
  - left. reflexivity.
Qed.



(** X19.  What the worker does for one request, besides answering, is
    at most the parse of the body followed by at most one request
    sent out: the one to the catalog or one follow-up, never both.
    For a method other than POST, and as long as the verification has
    not returned true, it does nothing at all. *)
Theorem fetch_effects_shape (P : Platform) (w : World) (request : Request) (env : Env) :
  (effects (fetch P w request env) = []
   \/ effects (fetch P w request env) = [EvJsonParse (request_text request)]
   \/ effects (fetch P w request env)
      = [EvJsonParse (request_text request); catalogRequest]
   \/ exists target g,
        effects (fetch P w request env)
        = [EvJsonParse (request_text request);
           EvWaitUntilPost target (singleGifMessage g)])
  /\ (method request <> "POST" \/ outcome (verification P request env) <> Returned true ->
      effects (fetch P w request env) = []).
Proof.
  destruct (fetch_cases P w request env)
    as [[Hm Hf]|[Hm [(e & Hv & Hf)|[[Hv Hf]|[Hv [(e & _ & Hf)|(i & _ & Hf)]]]]]];
    rewrite Hf; cbn [effects fst].
  - split; [left; reflexivity | reflexivity].
  - split; [left; reflexivity | reflexivity].
  - split; [left; reflexivity | reflexivity].
  - split; [right; left; reflexivity|]. intros [H|H]; contradiction.
  - split; [|intros [H|H]; contradiction].
    destruct (dispatch_effects w i env) as [He|[He|(target & g & He)]];
      rewrite He.
    + right. left. reflexivity.
    + right. right. left. reflexivity.
    + right. right. right. exists target, g. reflexivity.
Qed.

Lemma fetch_verified (P : Platform) (w : World) (request : Request) (env : Env) :
  method request = "POST" ->
  outcome (verification P request env) = Returned true ->
  (forall e, JSON_parse P (request_text request) = Thrown e ->
     fetch P w request env = ([EvJsonParse (request_text request)], Thrown e))
  /\ (forall interaction,
        JSON_parse P (request_text request) = Returned interaction ->
        fetch P w request env
        = (EvJsonParse (request_text request) :: effects (dispatch w interaction env),
           outcome (dispatch w interaction env))).
Proof.
  intros Hm Hv.
  destruct (fetch_cases P w request env)
    as [[Hm' _]|[_ [(e & Hv' & _)|[[Hv' _]|[_ [(e & Hp & Hf)|(i & Hp & Hf)]]]]]];
    try contradiction; try congruence.
  - split; [intros e' He'; congruence | intros i Hi; congruence].
  - split; [intros e He; congruence|].
    intros i' Hi'. assert (i' = i) as -> by congruence. exact Hf.
Qed.

(** X20.  A verified POST whose body parses to a ping is answered pong,
    with status 200, whatever else the interaction holds, and nothing
    is sent out. *)
Theorem ping_reply (P : Platform) (w : World) (request : Request) (env : Env)
    (interaction : Interaction) :
  method request = "POST" ->
  outcome (verification P request env) = Returned true ->
  JSON_parse P (request_text request) = Returned interaction ->
  type interaction = Some InteractionType.PING ->
  fetch P w request env
  = ([EvJsonParse (request_text request)],
     Returned {| status := 200;
                 headers := [("Content-Type", "application/json")];
                 body := JsonBody {| response_type := 1; response_data := None |} |}).
Proof.
  intros Hm Hv Hp Ht.
  rewrite (proj2 (fetch_verified P w request env Hm Hv) interaction Hp).
  unfold dispatch. rewrite Ht. reflexivity.
Qed.

Lemma ping_reply_witness :
  fetch (samplePlatform (fun _ => Returned {| type := Some 1;
                                              data := None;
                                              token := "tok" |}))
        crowdedWorld (postRequest (Some sampleSignature) "{}") (sampleEnv sampleKey)
  = ([EvJsonParse "{}"], Returned handlePing).
Proof.
  apply (ping_reply (samplePlatform (fun _ => Returned {| type := Some 1;
                                                          data := None;
                                                          token := "tok" |}))
           crowdedWorld (postRequest (Some sampleSignature) "{}") (sampleEnv sampleKey)
           {| type := Some 1; data := None; token := "tok" |});
    reflexivity.
Defined.

(** X21.  After the gate nothing is caught and nothing is changed.  A
    verified POST whose body does not parse throws the error of the
    parse.  One that parses to a command does what the command handler
    does and answers or throws what it answers or throws, and the same
    for a component click and the click handler. *)
Theorem verified_post_dispatch (P : Platform) (w : World) (request : Request) (env : Env) :
  method request = "POST" ->
  outcome (verification P request env) = Returned true ->
  (forall e, JSON_parse P (request_text request) = Thrown e ->
     fetch P w request env = ([EvJsonParse (request_text request)], Thrown e))
  /\ (forall interaction,
        JSON_parse P (request_text request) = Returned interaction ->
        (type interaction = Some InteractionType.APPLICATION_COMMAND ->
         fetch P w request env
         = (EvJsonParse (request_text request)
              :: effects (handleSlashCommand w interaction),
            outcome (handleSlashCommand w interaction)))
        /\ (type interaction = Some InteractionType.MESSAGE_COMPONENT ->
            fetch P w request env
            = (EvJsonParse (request_text request)
                 :: effects (handleButtonClick interaction env),
               outcome (handleButtonClick interaction env)))).
Proof.
  intros Hm Hv. destruct (fetch_verified P w request env Hm Hv) as [Hthrow Hrun].
  split; [exact Hthrow|].
  intros interaction Hp. rewrite (Hrun interaction Hp).
  split; intros Ht; unfold dispatch; rewrite Ht; reflexivity.
Qed.

Lemma verified_post_dispatch_witness :
  fetch (samplePlatform (fun _ => Returned (command None)))
        (worldOf [] (fun _ => 0%N))
        (postRequest (Some sampleSignature) "{}") (sampleEnv sampleKey)
  = ([EvJsonParse "{}"; catalogRequest], Thrown TypeError).
Proof.
  apply (proj1 (proj2 (verified_post_dispatch
                         (samplePlatform (fun _ => Returned (command None)))
                         (worldOf [] (fun _ => 0%N))
                         (postRequest (Some sampleSignature) "{}") (sampleEnv sampleKey)
                         eq_refl eq_refl)
                  (command None) eq_refl)).
  reflexivity.
Defined.

(** X22.  The gate hands the platform what the request says.  When the
    configured key and the signature header are bytes written as
    hexadecimal text, the key that is imported is these key bytes, and
    the verification is the one of these signature bytes over the
    UTF-8 text of the timestamp followed by the body: its answer is the
    answer of the gate. *)
Theorem signature_gate_passes_bytes (P : Platform) (request : Request) (env : Env)
    (keyBytes sigBytes : list Z) :
  Forall isByte keyBytes ->
  Forall isByte sigBytes ->
  DISCORD_PUBLIC_KEY env = hexOfBytes keyBytes ->
  X_Signature_Ed25519 request = Some (hexOfBytes sigBytes) ->
  verification P request env
  = ([],
     match importKey P keyBytes with
     | Returned key =>
         verify P key sigBytes
           (JS.utf8_encode (default "" (X_Signature_Timestamp request)
                            +:+ request_text request))
     | Thrown e => Thrown e
     end).
Proof.
  intros Hkey Hsig Hpk Hhdr. unfold verification, verifyDiscordSignature.
  rewrite Hpk, Hhdr. cbn [default from_option id].
  rewrite (hexToUint8Array_of_bytes keyBytes Hkey), (hexToUint8Array_of_bytes sigBytes Hsig).
  destruct (importKey P keyBytes) as [key|e]; [|reflexivity].
  rewrite bind_lift_returned. reflexivity.
Qed.

Lemma signature_gate_passes_bytes_witness :
  verification (samplePlatform (fun _ => Thrown SyntaxError))
    (postRequest (Some (hexOfBytes (replicate 64 7))) "{}")
    (sampleEnv (hexOfBytes (replicate 32 1)))
  = ([], Returned true).
Proof.
  apply (signature_gate_passes_bytes (samplePlatform (fun _ => Thrown SyntaxError))
           (postRequest (Some (hexOfBytes (replicate 64 7))) "{}")
           (sampleEnv (hexOfBytes (replicate 32 1)))
           (replicate 32 1) (replicate 64 7)).
  - apply Forall_replicate. unfold isByte. lia.
  - apply Forall_replicate. unfold isByte. lia.
  - reflexivity.
  - reflexivity.
Defined.

(** ** Embeds and buttons side by side *)

(** X23.  In a picker the embed and the button of a GIF stand at the
    place of the GIF: for the GIF at index [k], embed [k] is its embed
    and button [k mod 2] of row [k / 2] is its button. *)
Theorem picker_embed_and_button_of_each_gif (gifs : list Gif) (query : string)
    (k : nat) (g : Gif) :
  gifs !! k = Some g ->
  (exists es, embeds (buildGifPicker gifs query) = Some es
              /\ es !! k = Some (gifEmbed g))
  /\ (exists rows row,
        components (buildGifPicker gifs query) = Some rows
        /\ rows !! (k / 2)%nat = Some row
        /\ row_components row !! (k mod 2)%nat = Some (gifButton g)).
Proof.
  intros Hk. pose proof (lookup_lt_Some _ _ _ Hk) as Hlt.
  pose proof (Nat.div_mod_eq k 2) as Hdiv.
  pose proof (Nat.mod_upper_bound k 2 ltac:(lia)) as Hmod.
  split.
  - exists (map gifEmbed gifs). split; [reflexivity|].
    rewrite list_lookup_fmap, Hk. reflexivity.
  - exists (actionRows gifs), (rowAt gifs (2 * (k / 2))).
    split; [reflexivity|]. split.
    + unfold actionRows. rewrite actionRows_loop_lookup by lia.
      replace (0 + 2 * (k / 2))%nat with (2 * (k / 2))%nat by lia.
      destruct (Nat.ltb_spec (2 * (k / 2)) (length gifs)); [reflexivity | lia].
    + unfold rowAt. cbn [row_components].
      rewrite list_lookup_fmap, lookup_take_lt by exact Hmod.
      rewrite lookup_drop.
      replace (2 * (k / 2) + k mod 2)%nat with k by lia.
      rewrite Hk. reflexivity.
Qed.

Lemma picker_embed_and_button_of_each_gif_witness :
  (exists es, embeds (buildGifPicker (cats 5) "cat") = Some es
              /\ es !! 4%nat = Some (gifEmbed (mkGif "c4.gif" (Some "cat"))))
  /\ (exists rows row,
        components (buildGifPicker (cats 5) "cat") = Some rows
        /\ rows !! (4 / 2)%nat = Some row
        /\ row_components row !! (4 mod 2)%nat
           = Some (gifButton (mkGif "c4.gif" (Some "cat")))).
Proof.
  apply (picker_embed_and_button_of_each_gif (cats 5) "cat" 4
           (mkGif "c4.gif" (Some "cat"))).
  reflexivity.
Defined.

(** ** From the picker to the channel *)

Lemma gifEmbed_or_empty (gif : Gif) :
  gifEmbed (mkGif (url gif) (Some (or_empty (tags gif)))) = gifEmbed gif.
Proof.
  unfold gifEmbed, gifTitle, mkGif. cbn [url tags].
  destruct (tags gif) as [[|c t]|]; reflexivity.
Qed.

(** X24.  The GIF that a click posts to the channel is the one the
    picker showed.  For a GIF of the catalog, tags missing or not,
    whose identifier has at most 100 characters and whose url and tags
    cannot be taken for the separator, the click on its button sends
    as follow-up the very embed the picker displayed for it, and
    confirms with its url. *)
Theorem posted_gif_is_the_one_shown (gif : Gif) (env : Env) (tok : string) :
  (String.length ("post:" +:+ url gif +:+ "||" +:+ or_empty (tags gif)) <= 100)%nat ->
  JS.includes (url gif +:+ "|") "||" = false ->
  JS.includes (or_empty (tags gif)) "||" = false ->
  handleButtonClick
    {| type := Some InteractionType.MESSAGE_COMPONENT;
       data := Some {| options := None;
                       custom_id := Some (button_custom_id (gifButton gif)) |};
       token := tok |} env
  = ([EvWaitUntilPost
        ("https://discord.com/api/v10/webhooks/" +:+ DISCORD_APP_ID env +:+ "/" +:+ tok)
        {| content := None;
           embeds := Some [gifEmbed gif];
           components := None;
           flags := None |}],
     Returned (updateMessage
                 {| content := Some ("Posted **" +:+ url gif +:+ "**");
                    embeds := Some [];
                    components := Some [];
                    flags := None |})).
Proof.
  intros Hfit Hurl Htags.
  assert (Hid : button_custom_id (gifButton gif)
                = "post:" +:+ url gif +:+ "||" +:+ or_empty (tags gif))
    by (unfold gifButton; cbn [button_custom_id]; apply string_take_all, Hfit).
  rewrite (handleButtonClick_post
             {| type := Some InteractionType.MESSAGE_COMPONENT;
                data := Some {| options := None;
                                custom_id := Some (button_custom_id (gifButton gif)) |};
                token := tok |} env
             (url gif +:+ "||" +:+ or_empty (tags gif)))
    by (rewrite <- Hid; reflexivity).
  rewrite (decodePayload_joined _ _ Hurl Htags). cbn [fst snd token].
  rewrite gifEmbed_or_empty. reflexivity.
Qed.

Lemma posted_gif_is_the_one_shown_witness :
  handleButtonClick (click (Some (button_custom_id (gifButton (mkGif "party.gif" None)))))
                    (sampleEnv sampleKey)
  = ([EvWaitUntilPost "https://discord.com/api/v10/webhooks/app/tok"
        {| content := None;
           embeds := Some [gifEmbed (mkGif "party.gif" None)];
           components := None;
           flags := None |}],
     Returned (updateMessage
                 {| content := Some "Posted **party.gif**";
                    embeds := Some [];
                    components := Some [];
                    flags := None |})).
Proof.
  apply (posted_gif_is_the_one_shown (mkGif "party.gif" None) (sampleEnv sampleKey) "tok").
  - vm_compute. lia.
  - reflexivity.
  - reflexivity.
Defined.

(** Where the loop of [shuffled] starts, nothing is settled yet. *)
Lemma shuffled_start {T} (arr target : list T) :
  arr ≡ₚ target ->
  drop (S (length arr - 1)) arr = drop (S (length arr - 1)) target.
Proof.
  intros Hperm. pose proof (Permutation_length Hperm) as Hlens.
  destruct arr as [|x arr].
  - apply Permutation_nil_l in Hperm. subst target. reflexivity.
  - cbn [length] in *. replace (S (S (length arr) - 1)) with (S (length arr)) by lia.
    rewrite !drop_ge by (cbn [length]; lia). reflexivity.
Qed.

(** X25.  No match is kept out of the picker by its place in the
    catalog: for every GIF that matches the search there are random
    bits with which it is among the GIFs shown (the catalog having at
    most 2^53 GIFs). *)
Theorem every_match_can_be_shown (allGifs : list Gif) (g : Gif)
    (interaction : Interaction) (st : nat) :
  ok st = true ->
  searchQuery interaction <> "" ->
  g ∈ searchMatches allGifs (searchQuery interaction) ->
  (N.of_nat (length allGifs) <= 2 ^ 53)%N ->
  exists rnd shown,
    handleSlashCommand {| catalog := HttpReply st (Some allGifs); random := rnd |}
                       interaction
    = ([catalogRequest],
       Returned (channelMessage (buildGifPicker shown (searchQuery interaction))))
    /\ g ∈ shown.
Proof.
  intros Hok Hq Hg Hlen.
  set (matches := searchMatches allGifs (searchQuery interaction)) in *.
  assert (Hne : matches <> []) by (intros E; rewrite E in Hg; inversion Hg).
  apply list_elem_of_lookup in Hg as [j Hj].
  pose proof (delete_Permutation matches j g Hj) as Hperm.
  assert (Hmlen : (length matches <= length allGifs)%nat)
    by apply sublist_length, searchMatches_sublist.
  destruct (shuffle_loop_reaches (length matches - 1) 0 matches (g :: delete j matches)
              Hperm (shuffled_start _ _ Hperm) ltac:(lia) ltac:(lia)) as [rnd Hrnd].
  exists rnd, (shownGifs {| catalog := HttpReply st (Some allGifs); random := rnd |} matches).
  split.
  - apply (handleSlashCommand_search
             {| catalog := HttpReply st (Some allGifs); random := rnd |}
             interaction st allGifs eq_refl Hok Hq Hne).
  - unfold shownGifs, shuffled. cbn [random]. rewrite Hrnd. left.
Qed.

Lemma every_match_can_be_shown_witness :
  exists rnd shown,
    handleSlashCommand {| catalog := HttpReply 200 (Some (cats 12)); random := rnd |}
                       (command (Some "cat"))
    = ([catalogRequest], Returned (channelMessage (buildGifPicker shown "cat")))
    /\ mkGif "c11.gif" (Some "cat") ∈ shown.
Proof.
  apply (every_match_can_be_shown (cats 12) (mkGif "c11.gif" (Some "cat"))
           (command (Some "cat")) 200).
  - reflexivity.
  - discriminate.
  - apply list_elem_of_In. vm_compute. tauto.
  - vm_compute. discriminate.
Defined.

(** ** Letter case in hexadecimal text *)

Lemma lower_char_white (c : ascii) : JS.is_white (JS.lower_char c) = JS.is_white c.
Proof. destruct c as [[] [] [] [] [] [] [] []]; vm_compute; reflexivity. Qed.

Lemma lower_char_hex_digit (c : ascii) : JS.hex_digit (JS.lower_char c) = JS.hex_digit c.
Proof. destruct c as [[] [] [] [] [] [] [] []]; vm_compute; reflexivity. Qed.

Lemma toLowerCase_length (s : string) :
  String.length (JS.toLowerCase s) = String.length s.
Proof. induction s as [|c s IH]; [reflexivity|]. cbn. rewrite IH. reflexivity. Qed.

Lemma toLowerCase_take (n : nat) (s : string) :
  JS.take n (JS.toLowerCase s) = JS.toLowerCase (JS.take n s).
Proof.
  revert n. induction s as [|c s IH]; intros [|n]; try reflexivity.
  cbn [JS.toLowerCase JS.take]. rewrite IH. reflexivity.
Qed.

Lemma toLowerCase_drop (n : nat) (s : string) :
  JS.drop n (JS.toLowerCase s) = JS.toLowerCase (JS.drop n s).
Proof.
  revert n. induction s as [|c s IH]; intros [|n]; try reflexivity.
  cbn [JS.toLowerCase JS.drop]. apply IH.
Qed.

Lemma toLowerCase_trimStart (s : string) :
  JS.trimStart (JS.toLowerCase s) = JS.toLowerCase (JS.trimStart s).
Proof.
  induction s as [|c s IH]; [reflexivity|].
  cbn [JS.toLowerCase JS.trimStart]. rewrite lower_char_white.
  destruct (JS.is_white c); [exact IH | reflexivity].
Qed.

Lemma toLowerCase_strip_sign (s : string) :
  JS.strip_sign (JS.toLowerCase s)
  = (fst (JS.strip_sign s), JS.toLowerCase (snd (JS.strip_sign s))).
Proof.
  destruct s as [|c s]; [reflexivity|].
  destruct c as [[] [] [] [] [] [] [] []]; reflexivity.
Qed.

Lemma toLowerCase_strip_0x (s : string) :
  JS.strip_0x (JS.toLowerCase s) = JS.toLowerCase (JS.strip_0x s).
Proof.
  destruct s as [|c1 [|c2 s]]; [reflexivity | |].
  - destruct c1 as [[] [] [] [] [] [] [] []]; reflexivity.
  - destruct c1 as [[] [] [] [] [] [] [] []]; try reflexivity.
    destruct c2 as [[] [] [] [] [] [] [] []]; reflexivity.
Qed.

Lemma toLowerCase_digits_prefix (acc : option Z) (s : string) :
  JS.digits_prefix acc (JS.toLowerCase s) = JS.digits_prefix acc s.
Proof.
  revert acc. induction s as [|c s IH]; intros acc; [reflexivity|].
  cbn [JS.toLowerCase JS.digits_prefix]. rewrite lower_char_hex_digit.
  destruct (JS.hex_digit c); [apply IH | reflexivity].
Qed.

(** [parseInt(s, 16)] reads capitals as it reads small letters. *)
Lemma toLowerCase_parseInt16 (s : string) :
  JS.parseInt16 (JS.toLowerCase s) = JS.parseInt16 s.
Proof.
  unfold JS.parseInt16.
  rewrite toLowerCase_trimStart, toLowerCase_strip_sign.
  destruct (JS.strip_sign (JS.trimStart s)) as [sign rest]. cbn [fst snd].
  rewrite toLowerCase_strip_0x, toLowerCase_digits_prefix. reflexivity.
Qed.

Lemma toLowerCase_hex_loop (fuel i : nat) (hex : string) (bytes : list Z) :
  hex_loop fuel i (JS.toLowerCase hex) bytes = hex_loop fuel i hex bytes.
Proof.
  revert i bytes. induction fuel as [|fuel IH]; intros i bytes; cbn [hex_loop];
    [reflexivity|].
  rewrite toLowerCase_length. unfold JS.slice.
  rewrite toLowerCase_drop, toLowerCase_take, toLowerCase_parseInt16, IH. reflexivity.
Qed.

(** X26.  The letter case of hexadecimal text does not count: two
    texts that differ by the case of their letters only decode to the
    same bytes, so a key or a signature may be written with capitals. *)
Theorem hex_ignores_letter_case (hex1 hex2 : string) :
  sameIgnoringCase hex1 hex2 -> hexToUint8Array hex1 = hexToUint8Array hex2.
Proof.
  unfold sameIgnoringCase. intros Hsame.
  assert (Hlower : forall hex, hexToUint8Array (JS.toLowerCase hex) = hexToUint8Array hex).
  { intros hex. unfold hexToUint8Array.
    rewrite toLowerCase_length. apply toLowerCase_hex_loop. }
  rewrite <- (Hlower hex1), <- (Hlower hex2), Hsame. reflexivity.
Qed.

Lemma hex_ignores_letter_case_witness :
  hexToUint8Array "0AfF1b" = hexToUint8Array "0aFf1B".
Proof. apply (hex_ignores_letter_case "0AfF1b" "0aFf1B"). reflexivity. Defined.

(** ** Identifiers that do not fit *)

(** X27.  An identifier of more than 100 characters gives the path and
    the tags back in one case only: no tags and a path of exactly 95
    characters, where the cut falls on the separator.  In every other
    case the click handler decodes something else. *)
Theorem long_identifier_round_trip (path tgs : string) :
  (100 < String.length ("post:" +:+ path +:+ "||" +:+ tgs))%nat ->
  roundTrips path tgs ->
  tgs = "" /\ String.length path = 95%nat.
Proof.
  intros Hlong [_ Hdec].
  set (payload := JS.take 95 (path +:+ "||" +:+ tgs)).
  change (JS.drop (String.length "post:") (customIdOf path tgs))
    with (JS.drop 5 (JS.take 100 ("post:" +:+ path +:+ "||" +:+ or_empty (Some tgs))))
    in Hdec.
  rewrite or_empty_Some in Hdec.
  change (JS.drop 5 (JS.take 100 ("post:" +:+ path +:+ "||" +:+ tgs))) with payload in Hdec.
  assert (Hlen : String.length payload = 95%nat).
  { unfold payload. rewrite string_take_length.
    change ("post:" +:+ path +:+ "||" +:+ tgs)
      with (String "p" (String "o" (String "s" (String "t" (String ":"
              (path +:+ "||" +:+ tgs)))))) in Hlong.
    cbn [String.length] in Hlong. lia. }
  unfold decodePayload, JS.split_limit, JS.split in Hdec.
  destruct (split_from_head payload "") as [pre [[Hs Hsplit]|(rest & Hs & Hsplit)]];
    rewrite Hsplit, string_app_nil_l in Hdec.
  - cbn in Hdec. injection Hdec as Hpath Htags.
    split; [symmetry; exact Htags|]. rewrite <- Hpath, <- Hs. exact Hlen.
  - exfalso.
    assert (Hrest : (String.length tgs <= String.length rest)%nat).
    { destruct (split_from_head rest "") as [pre2 [[Hr Hsplit2]|(more & Hr & Hsplit2)]];
        rewrite Hsplit2, string_app_nil_l in Hdec; cbn in Hdec;
        injection Hdec as _ Htags; rewrite Hr, <- Htags.
      - lia.
      - rewrite string_length_app. lia. }
    assert (Hpre : pre = path).
    { destruct (JS.split_from "||" 0 "" rest); cbn in Hdec; congruence. }
    subst pre. rewrite Hs, !string_length_app in Hlen.
    rewrite !string_length_app in Hlong. cbn [String.length] in Hlen, Hlong. lia.
Qed.

Lemma long_identifier_round_trip_witness :
  "" = ""
  /\ String.length
       "0123456789012345678901234567890123456789012345678901234567890123456789012345678901234567890.gif"
     = 95%nat.
Proof.
  apply (long_identifier_round_trip
           "0123456789012345678901234567890123456789012345678901234567890123456789012345678901234567890.gif"
           "").
  - vm_compute. lia.
  - split; reflexivity.
Defined.
